(** * Salesforce layout editor: the layout model and its two reconcilers

    A shallow embedding of [real_drag_drop.py] (free drag reorder, class
    [RealDragDropEditor]) and [simple_drag_editor.py] (select-then-swap,
    class [SimpleDragEditor]).  Both files declare the same two dataclasses
    and the same seed layout; they differ in how a user gesture is turned
    into new [position] values. *)

From Stdlib Require Import List ZArith NArith Lia Bool String Ascii.
From Stdlib Require Import Permutation Sorted.
Import ListNotations.
Open Scope Z_scope.

(** ** Python values *)

(** A Python [str] is a sequence of Unicode code points.  ASCII literals are
    written with [py]; the few other code points of the sources are written
    by number. *)
Definition str := list N.

Definition py (s : string) : str := map N_of_ascii (list_ascii_of_string s).

(** The double quote character. *)
Definition DQUOTE : N := 34%N.
(** The line feed character. *)
Definition LF : N := 10%N.
(** U+2610 BALLOT BOX, the value of the [trimble_customer] field. *)
Definition BALLOT_BOX : N := 9744%N.
(** U+22EE VERTICAL ELLIPSIS, the drag handle glyph. *)
Definition VELLIPSIS : N := 8942%N.

(** [a == b] on strings. *)
Definition str_eqb (a b : str) : bool :=
  if list_eq_dec N.eq_dec a b then true else false.

(** Truthiness of a string: non-empty. *)
Definition truthy (s : str) : bool :=
  match s with [] => false | _ :: _ => true end.

(** The only exception the modelled code can raise: [next] on an exhausted
    generator. *)
Inductive exn : Type := StopIteration.

(** A call either returns or raises; both leave a state behind, because the
    objects are mutated in place and the session outlives the exception. *)
Inductive outcome (St : Type) : Type :=
| Returned (s : St)
| Raised (e : exn) (s : St).
Arguments Returned {St} s.
Arguments Raised {St} e s.

Definition state_of {St : Type} (o : outcome St) : St :=
  match o with Returned s => s | Raised _ s => s end.

Definition map_outcome {A B : Type} (f : A -> B) (o : outcome A) : outcome B :=
  match o with
  | Returned s => Returned (f s)
  | Raised e s => Raised e (f s)
  end.

(** ** The dataclasses (identical in both files) *)

Record LayoutField : Type := mkField {
  id : str;
  label : str;
  value : str;
  field_type : str;
  visible : bool;
  position : Z
}.

Record LayoutSection : Type := mkSection {
  name : str;
  title : str;
  fields : list LayoutField;
  expanded : bool
}.

(** The literal of the empty string. *)
Definition empty : string := EmptyString.

(** [LayoutField(id, label, value, field_type, visible, position)] with the
    literals of the sources. *)
Definition LF_ (i l v t : string) (vis : bool) (p : Z) : LayoutField :=
  mkField (py i) (py l) (py v) (py t) vis p.

(** Attribute assignments. *)
Definition with_position (f : LayoutField) (p : Z) : LayoutField :=
  mkField (id f) (label f) (value f) (field_type f) (visible f) p.

Definition with_visible (f : LayoutField) (v : bool) : LayoutField :=
  mkField (id f) (label f) (value f) (field_type f) v (position f).

Definition with_fields (s : LayoutSection) (fs : list LayoutField) : LayoutSection :=
  mkSection (name s) (title s) fs (expanded s).

Definition with_expanded (s : LayoutSection) (e : bool) : LayoutSection :=
  mkSection (name s) (title s) (fields s) e.

(** ** Objects inside a list

    The field objects of a section live in [section.fields]; an object is
    addressed by its index in that list. *)

(** [next(f for f in fields if f.id == field_id)]: the first field with that
    id, [None] standing for [StopIteration]. *)
Fixpoint next_field (field_id : str) (fs : list LayoutField) : option nat :=
  match fs with
  | [] => None
  | f :: r =>
      if str_eqb (id f) field_id then Some O
      else option_map S (next_field field_id r)
  end.

(** Apply [g] to the object at index [k]. *)
Fixpoint update_at {A : Type} (k : nat) (g : A -> A) (l : list A) : list A :=
  match l, k with
  | [], _ => []
  | x :: r, O => g x :: r
  | x :: r, S k' => x :: update_at k' g r
  end.

(** [fields[k].position = p]. *)
Definition set_position (k : nat) (p : Z) (fs : list LayoutField) : list LayoutField :=
  update_at k (fun f => with_position f p) fs.

(** [fields[k].position], 0 when there is no such object (never read then). *)
Definition position_at (k : nat) (fs : list LayoutField) : Z :=
  match nth_error fs k with Some f => position f | None => 0 end.

(** ** [sorted(fields, key=lambda x: x.position)] and [fields.sort(key=...)]

    Python's sort is stable and ascending in the key: elements with equal
    positions keep their relative order.  The model inserts each element in
    front of the first element whose key is not smaller. *)
Fixpoint insert_by_position (f : LayoutField) (l : list LayoutField) : list LayoutField :=
  match l with
  | [] => [f]
  | g :: r =>
      if position f <=? position g then f :: g :: r
      else g :: insert_by_position f r
  end.

Definition sorted_by_position (l : list LayoutField) : list LayoutField :=
  fold_right insert_by_position [] l.

(** [f.visible and f.label] *)
Definition shown (f : LayoutField) : bool := visible f && truthy (label f).

(** [render_section], both files:
    [sorted_fields = sorted(section.fields, key=lambda x: x.position)]
    [visible_fields = [f for f in sorted_fields if f.visible and f.label]] *)
Definition sorted_fields (section : LayoutSection) : list LayoutField :=
  sorted_by_position (fields section).

Definition visible_fields (section : LayoutSection) : list LayoutField :=
  filter shown (sorted_fields section).

(** ** [str.find], slicing and [in]

    Indices are Python integers: [find] answers [-1] when there is no
    occurrence, and a negative slice bound counts from the end. *)

(** [s.startswith(sub)] *)
Fixpoint starts_with (sub s : str) : bool :=
  match sub, s with
  | [], _ => true
  | _ :: _, [] => false
  | a :: sub', b :: s' => N.eqb a b && starts_with sub' s'
  end.

(** The lowest index of an occurrence of [sub] in [s], whose first character
    has index [i]. *)
Fixpoint find_at (sub s : str) (i : Z) : Z :=
  if starts_with sub s then i
  else match s with
       | [] => -1
       | _ :: r => find_at sub r (i + 1)
       end.

Definition len (s : str) : Z := Z.of_nat (List.length s).

(** How a slice bound is read: negative bounds count from the end, and the
    result is clamped to [0 .. len s]. *)
Definition slice_bound (s : str) (i : Z) : Z :=
  if i <? 0 then Z.max 0 (i + len s) else Z.min i (len s).

(** [s.find(sub, start)] *)
Definition py_find (sub s : str) (start : Z) : Z :=
  let a := slice_bound s start in
  if (len s <? start) then -1
  else find_at sub (skipn (Z.to_nat a) s) a.

(** [s[start:stop]] *)
Definition py_slice (s : str) (start stop : Z) : str :=
  let a := slice_bound s start in
  let b := slice_bound s stop in
  firstn (Z.to_nat (b - a)) (skipn (Z.to_nat a) s).

(** [sub in s] *)
Definition str_in (sub s : str) : bool := negb (py_find sub s 0 =? -1).

(** * [real_drag_drop.py]: free drag reorder *)
Module Real.

(** [st.session_state] *)
Record SessionState : Type := mkState {
  sections : list LayoutSection;
  show_hidden_panel : bool
}.

(** [init_session_state] on a fresh session. *)
Definition init_session_state : SessionState := mkState [] false.

(** The literals of [load_original_layout]. *)
Definition account_fields : list LayoutField :=
  [
    (* Row 1 *)
    LF_ "account_name" "Account Name" "Steed Standard Transport Ltd." "text" true 0;
    LF_ "customer_id_us" "Customer Id TMW US" empty "text" true 1;
    (* Row 2 *)
    LF_ "enterprise_account" "Enterprise Account Number" "16484517" "text" true 2;
    LF_ "customer_id_cad" "Customer Id TMW CAD" "Steed Standard Transport - TMWCAN" "text" true 3;
    (* Row 3 *)
    LF_ "division" "Division" "PeopleNet/TMW CAD" "text" true 4;
    LF_ "customer_id_aud" "Customer Id TMW AUD" empty "text" true 5;
    (* Row 4 *)
    LF_ "type" "Type" "Customer" "picklist" true 6;
    LF_ "parent_child" "Parent or Child Account" "Parent" "picklist" true 7;
    (* Row 5 *)
    LF_ "account_status" "Account Status TMW" "CUSTOMER-(C) Live Customer" "picklist" true 8;
    LF_ "timezone" "Account Time Zone (US & CA)" "Eastern Standard Time" "picklist" true 9;
    (* Row 6 *)
    LF_ "tags" "Tags" empty "text" true 10;
    LF_ "phone" "Phone TMW" "(519) 271-9924 x230" "phone" true 11;
    (* Row 7 *)
    LF_ "lead_source" "Lead Source" empty "text" true 12;
    LF_ "fax" "Fax TMW" empty "phone" true 13;
    (* Row 8 *)
    mkField (py "trimble_customer") (py "Trimble TMS Customer") [BALLOT_BOX] (py "checkbox") true 14;
    LF_ "website" "Website" "http://www.ssl.ca/" "url" true 15;
    (* Row 9 *)
    LF_ "global_id" "Global ID" "G1005495" "text" true 16;
    LF_ "lead_source_detail" "Lead Source Detail" empty "text" true 17;
    (* Row 10 *)
    LF_ "customer_profile" "Customer Profile" empty "text" true 18;
    LF_ "support_maintenance" "Support & Maintenance" "18%" "percentage" true 19;
    (* Row 11 *)
    LF_ "account_stage_us" "Account Stage TMW US" empty "text" true 20;
    LF_ "drive_link" "Customer Drive Link" empty "url" true 21;
    (* Row 12 *)
    LF_ "account_stage_aud" "Account Stage TMW AUD" empty "text" true 22;
    LF_ "account_stage_cad" "Account Stage TMW CAD" "Customer" "picklist" true 23
  ].

    (* Parent Hierarchy *)
Definition parent_fields : list LayoutField :=
  [
    LF_ "parent_us" "Parent Account TMW US" empty "text" true 0;
    LF_ "parent_cad" "Parent Account TMW CAD" empty "text" true 1;
    LF_ "parent_account" "Parent Account" empty "text" true 2;
    LF_ "parent_netsuite" "Parent NetSuite Id" empty "text" true 3
  ].

    (* Customer Success *)
Definition success_fields : list LayoutField :=
  [
    LF_ "sentiment" "Customer Sentiment" "Average" "picklist" true 0;
    LF_ "risk_update" "At Risk Update" empty "text" true 1;
    LF_ "risk_status" "Enterprise Risk Status" empty "text" true 2;
    LF_ "totango_health" "Totango Customer Health" "Poor" "picklist" true 3;
    LF_ "risk_reason" "Enterprise Risk Reason" empty "text" true 4;
    LF_ "empty1" empty empty "text" false 5;
    LF_ "risk_severity" "Enterprise At-Risk Severity Level" empty "text" true 6;
    LF_ "empty2" empty empty "text" false 7;
    LF_ "product_risk" "Enterprise Product At Risk" empty "text" true 8;
    LF_ "empty3" empty empty "text" false 9;
    LF_ "segmentation" "Segmentation Tier" "Tier 5 CS Engage" "picklist" true 10;
    LF_ "empty4" empty empty "text" false 11
  ].

Definition original_sections : list LayoutSection :=
  [ mkSection (py "account_info") (py "Account Information") account_fields true;
    mkSection (py "parent_hierarchy") (py "Parent Hierarchy") parent_fields true;
    mkSection (py "customer_success") (py "Customer Success") success_fields true ].

(** [load_original_layout]: only when [st.session_state.sections] is empty. *)
Definition load_original_layout (st : SessionState) : SessionState :=
  match sections st with
  | [] => mkState original_sections (show_hidden_panel st)
  | _ :: _ => st
  end.

(** [create_field_item]: the sortable item of a field, an HTML fragment
    that carries the field id in its [data-field-id] attribute. *)
Definition spaces (n : nat) : str := repeat 32%N n.

Definition display_value (field : LayoutField) : str :=
  if str_eqb (field_type field) (py "url") && truthy (value field) then
    py "<a href=" ++ [DQUOTE] ++ value field ++ [DQUOTE] ++ py " target="
       ++ [DQUOTE] ++ py "_blank" ++ [DQUOTE] ++ py ">" ++ value field ++ py "</a>"
  else if str_eqb (field_type field) (py "phone") && truthy (value field) then
    py "<a href=" ++ [DQUOTE] ++ py "tel:" ++ value field ++ [DQUOTE] ++ py ">"
       ++ value field ++ py "</a>"
  else if truthy (value field) then value field
  else py "--".

(** The marker searched for: [data-field-id=] and a double quote, 15
    characters. *)
Definition ID_MARKER : str := py "data-field-id=" ++ [DQUOTE].

Definition create_field_item (field : LayoutField) (section_name : str) : str :=
  [LF] ++ spaces 8 ++ py "<div " ++ ID_MARKER ++ id field ++ [DQUOTE] ++ py ">"
  ++ [LF] ++ spaces 12 ++ py "<div class=" ++ [DQUOTE] ++ py "field-label" ++ [DQUOTE] ++ py ">"
  ++ [LF] ++ spaces 16 ++ py "<span><span class=" ++ [DQUOTE] ++ py "drag-handle" ++ [DQUOTE]
  ++ py ">" ++ [VELLIPSIS; VELLIPSIS] ++ py "</span> " ++ label field ++ py "</span>"
  ++ [LF] ++ spaces 12 ++ py "</div>"
  ++ [LF] ++ spaces 12 ++ py "<div class=" ++ [DQUOTE] ++ py "field-value" ++ [DQUOTE] ++ py ">"
  ++ display_value field ++ py "</div>"
  ++ [LF] ++ spaces 8 ++ py "</div>"
  ++ [LF] ++ spaces 8.

(** The first loop of [update_field_order]: the field id of every item that
    carries the marker; an item without it is passed over. *)
Definition parse_field_id (item_html : str) : str :=
  let start := py_find ID_MARKER item_html 0 + 15 in
  let end_ := py_find [DQUOTE] item_html start in
  py_slice item_html start end_.

Fixpoint extract_field_ids (sorted_items : list str) : list str :=
  match sorted_items with
  | [] => []
  | item_html :: rest =>
      if str_in ID_MARKER item_html
      then parse_field_id item_html :: extract_field_ids rest
      else extract_field_ids rest
  end.

(** The second loop: [for i, field_id in enumerate(new_order)], from index
    [i] on.  [next] raises [StopIteration] when no field has the id; the
    positions written before stay written. *)
Fixpoint assign_positions (i : nat) (new_order : list str) (fs : list LayoutField)
  : outcome (list LayoutField) :=
  match new_order with
  | [] => Returned fs
  | field_id :: rest =>
      match next_field field_id fs with
      | None => Raised StopIteration fs
      | Some k => assign_positions (S i) rest (set_position k (Z.of_nat i) fs)
      end
  end.

(** [update_field_order(section, sorted_items)] *)
Definition update_field_order (section : LayoutSection) (sorted_items : list str)
  : outcome LayoutSection :=
  let new_order := extract_field_ids sorted_items in
  match assign_positions 0 new_order (fields section) with
  | Raised e fs => Raised e (with_fields section fs)
  | Returned fs => Returned (with_fields section (sorted_by_position fs))
  end.

(** ** The handlers of the page

    A widget belongs to an object: section number [si] of
    [st.session_state.sections], field number [fi] of its [fields]. *)

Definition on_section (si : nat) (g : LayoutSection -> LayoutSection)
  (st : SessionState) : SessionState :=
  mkState (update_at si g (sections st)) (show_hidden_panel st).

Definition on_field (si fi : nat) (g : LayoutField -> LayoutField)
  (st : SessionState) : SessionState :=
  on_section si (fun s => with_fields s (update_at fi g (fields s))) st.

(** The items shown for a section: [sortable_items] of [render_section]. *)
Definition sortable_items (section : LayoutSection) : list str :=
  map (fun field => create_field_item field (name section)) (visible_fields section).

(** The sortable component of section [si] answered [sorted_items]:
    [if sorted_items != sortable_items: self.update_field_order(...)]. *)
Definition drop_items (si : nat) (sorted_items : list str) (st : SessionState)
  : outcome SessionState :=
  match nth_error (sections st) si with
  | None => Returned st
  | Some section =>
      if list_eq_dec (list_eq_dec N.eq_dec) sorted_items (sortable_items section)
      then Returned st
      else map_outcome (fun s => on_section si (fun _ => s) st)
             (update_field_order section sorted_items)
  end.

(** The hide button of a field: [field.visible = False]. *)
Definition hide_field (si fi : nat) (st : SessionState) : SessionState :=
  on_field si fi (fun f => with_visible f false) st.

(** The button of a field in the hidden panel: [field.visible = True]. *)
Definition unhide_field (si fi : nat) (st : SessionState) : SessionState :=
  on_field si fi (fun f => with_visible f true) st.

(** The toggle button of a section header. *)
Definition toggle_section (si : nat) (st : SessionState) : SessionState :=
  on_section si (fun s => with_expanded s (negb (expanded s))) st.

(** The panel button of [render_controls]. *)
Definition toggle_hidden_panel (st : SessionState) : SessionState :=
  mkState (sections st) (negb (show_hidden_panel st)).

(** The reset button of [render_controls]. *)
Definition reset_layout (st : SessionState) : SessionState :=
  load_original_layout (mkState [] (show_hidden_panel st)).

(** What a user can do on the page; [Drop si items] is the sortable
    component of section [si] answering [items]. *)
Inductive action : Type :=
| Drop (si : nat) (sorted_items : list str)
| ClickHide (si fi : nat)
| ClickUnhide (si fi : nat)
| ClickSection (si : nat)
| ClickPanel
| ClickReset.

(** [f.visible and f.label] of field [fi] of section [si], and
    [not f.visible and f.label]. *)
Definition field_is (q : LayoutField -> bool) (si fi : nat) (st : SessionState) : bool :=
  match nth_error (sections st) si with
  | None => false
  | Some section =>
      match nth_error (fields section) fi with
      | None => false
      | Some field => q field
      end
  end.

Definition hidden (f : LayoutField) : bool := negb (visible f) && truthy (label f).

(** The widgets on the page: the sortable component and the hide buttons
    of a section are there when it is expanded and lists a field; the
    buttons of the hidden panel when the panel is open; the panel button
    when [hidden_count > 0]. *)
Definition section_open (si : nat) (st : SessionState) : bool :=
  match nth_error (sections st) si with
  | None => false
  | Some section =>
      expanded section && negb (Nat.eqb (List.length (visible_fields section)) 0)
  end.

Definition enabled (a : action) (st : SessionState) : bool :=
  match a with
  | Drop si _ => section_open si st
  | ClickHide si fi => section_open si st && field_is shown si fi st
  | ClickUnhide si fi => show_hidden_panel st && field_is hidden si fi st
  | ClickSection si =>
      match nth_error (sections st) si with Some _ => true | None => false end
  | ClickPanel => existsb (fun s => existsb hidden (fields s)) (sections st)
  | ClickReset => true
  end.

(** One script run for one event on a widget of the page.  An exception
    ends the run; what had been written to the session by then stays. *)
Definition step (a : action) (st : SessionState) : SessionState :=
  if enabled a st then
    match a with
    | Drop si items => state_of (drop_items si items st)
    | ClickHide si fi => hide_field si fi st
    | ClickUnhide si fi => unhide_field si fi st
    | ClickSection si => toggle_section si st
    | ClickPanel => toggle_hidden_panel st
    | ClickReset => reset_layout st
    end
  else st.

Definition run (acts : list action) (st : SessionState) : SessionState :=
  fold_left (fun s a => step a s) acts st.

(** ** What the page shows *)

(** [render_section]: the two counts of the section header. *)
Definition visible_count (section : LayoutSection) : nat :=
  List.length (filter shown (fields section)).

Definition hidden_count (section : LayoutSection) : nat :=
  List.length (filter hidden (fields section)).

(** [render_controls]: [hidden_count], the sum over the sections. *)
Definition total_hidden_count (st : SessionState) : nat :=
  fold_left (fun n s => (n + hidden_count s)%nat) (sections st) 0%nat.

(** [render_hidden_panel]: [all_hidden], built when the panel is open. *)
Definition hidden_of (section : LayoutSection) : list (str * str * LayoutField) :=
  map (fun field => (name section, title section, field))
      (filter hidden (fields section)).

Definition all_hidden (st : SessionState) : list (str * str * LayoutField) :=
  if show_hidden_panel st then flat_map hidden_of (sections st) else [].

(** [__init__] in a session that has its keys: [init_session_state] finds
    them, [load_original_layout] looks at [sections]. *)
Definition construct (st : SessionState) : SessionState :=
  load_original_layout st.

(** One run of the script for an event: the constructor, then the page. *)
Definition script_run (a : action) (st : SessionState) : SessionState :=
  step a (construct st).

End Real.

(** * [simple_drag_editor.py]: select, then swap *)
Module Simple.

(** [st.session_state]; [selected_field] is [None] or the tuple
    [(section.name, field.label, field.id)]. *)
Record SessionState : Type := mkState {
  sections : list LayoutSection;
  selected_field : option (str * str * str);
  show_hidden_panel : bool
}.

(** [init_session_state] on a fresh session. *)
Definition init_session_state : SessionState := mkState [] None false.

(** The literals of [load_original_layout]. *)
Definition account_fields : list LayoutField :=
  [
    (* Row 1 *)
    LF_ "account_name" "Account Name" "Steed Standard Transport Ltd." "text" true 0;
    LF_ "customer_id_us" "Customer Id TMW US" empty "text" true 1;
    (* Row 2 *)
    LF_ "enterprise_account" "Enterprise Account Number" "16484517" "text" true 2;
    LF_ "customer_id_cad" "Customer Id TMW CAD" "Steed Standard Transport - TMWCAN" "text" true 3;
    (* Row 3 *)
    LF_ "division" "Division" "PeopleNet/TMW CAD" "text" true 4;
    LF_ "customer_id_aud" "Customer Id TMW AUD" empty "text" true 5;
    (* Row 4 *)
    LF_ "type" "Type" "Customer" "picklist" true 6;
    LF_ "parent_child" "Parent or Child Account" "Parent" "picklist" true 7;
    (* Row 5 *)
    LF_ "account_status" "Account Status TMW" "CUSTOMER-(C) Live Customer" "picklist" true 8;
    LF_ "timezone" "Account Time Zone (US & CA)" "Eastern Standard Time" "picklist" true 9;
    (* Row 6 *)
    LF_ "tags" "Tags" empty "text" true 10;
    LF_ "phone" "Phone TMW" "(519) 271-9924 x230" "phone" true 11;
    (* Row 7 *)
    LF_ "lead_source" "Lead Source" empty "text" true 12;
    LF_ "fax" "Fax TMW" empty "phone" true 13;
    (* Row 8 *)
    mkField (py "trimble_customer") (py "Trimble TMS Customer") [BALLOT_BOX] (py "checkbox") true 14;
    LF_ "website" "Website" "http://www.ssl.ca/" "url" true 15;
    (* Row 9 *)
    LF_ "global_id" "Global ID" "G1005495" "text" true 16;
    LF_ "lead_source_detail" "Lead Source Detail" empty "text" true 17;
    (* Row 10 *)
    LF_ "customer_profile" "Customer Profile" empty "text" true 18;
    LF_ "support_maintenance" "Support & Maintenance" "18%" "percentage" true 19;
    (* Row 11 *)
    LF_ "account_stage_us" "Account Stage TMW US" empty "text" true 20;
    LF_ "drive_link" "Customer Drive Link" empty "url" true 21;
    (* Row 12 *)
    LF_ "account_stage_aud" "Account Stage TMW AUD" empty "text" true 22;
    LF_ "account_stage_cad" "Account Stage TMW CAD" "Customer" "picklist" true 23
  ].

    (* Parent Hierarchy *)
Definition parent_fields : list LayoutField :=
  [
    LF_ "parent_us" "Parent Account TMW US" empty "text" true 0;
    LF_ "parent_cad" "Parent Account TMW CAD" empty "text" true 1;
    LF_ "parent_account" "Parent Account" empty "text" true 2;
    LF_ "parent_netsuite" "Parent NetSuite Id" empty "text" true 3
  ].

    (* Customer Success *)
Definition success_fields : list LayoutField :=
  [
    LF_ "sentiment" "Customer Sentiment" "Average" "picklist" true 0;
    LF_ "risk_update" "At Risk Update" empty "text" true 1;
    LF_ "risk_status" "Enterprise Risk Status" empty "text" true 2;
    LF_ "totango_health" "Totango Customer Health" "Poor" "picklist" true 3;
    LF_ "risk_reason" "Enterprise Risk Reason" empty "text" true 4;
    LF_ "empty1" empty empty "text" false 5;
    LF_ "risk_severity" "Enterprise At-Risk Severity Level" empty "text" true 6;
    LF_ "empty2" empty empty "text" false 7;
    LF_ "product_risk" "Enterprise Product At Risk" empty "text" true 8;
    LF_ "empty3" empty empty "text" false 9;
    LF_ "segmentation" "Segmentation Tier" "Tier 5 CS Engage" "picklist" true 10;
    LF_ "empty4" empty empty "text" false 11
  ].

Definition original_sections : list LayoutSection :=
  [ mkSection (py "account_info") (py "Account Information") account_fields true;
    mkSection (py "parent_hierarchy") (py "Parent Hierarchy") parent_fields true;
    mkSection (py "customer_success") (py "Customer Success") success_fields true ].

(** [load_original_layout]: only when [st.session_state.sections] is empty. *)
Definition load_original_layout (st : SessionState) : SessionState :=
  match sections st with
  | [] => mkState original_sections (selected_field st) (show_hidden_panel st)
  | _ :: _ => st
  end.

(** The body of the loop of [swap_fields] for the section whose name
    matches: both lookups come first, then the tuple assignment
    [field1.position, field2.position = field2.position, field1.position]
    (right-hand side read before either write), then the sort. *)
Definition swap_in_section (section : LayoutSection) (field1_id field2_id : str)
  : outcome LayoutSection :=
  match next_field field1_id (fields section) with
  | None => Raised StopIteration section
  | Some k1 =>
      match next_field field2_id (fields section) with
      | None => Raised StopIteration section
      | Some k2 =>
          let p1 := position_at k1 (fields section) in
          let p2 := position_at k2 (fields section) in
          let fs := set_position k2 p1 (set_position k1 p2 (fields section)) in
          Returned (with_fields section (sorted_by_position fs))
      end
  end.

(** [swap_fields(section_name, field1_id, field2_id)] over
    [st.session_state.sections]: the first section with that name, then
    [break]; no section with that name ends the loop without an effect. *)
Fixpoint swap_fields (secs : list LayoutSection) (section_name field1_id field2_id : str)
  : outcome (list LayoutSection) :=
  match secs with
  | [] => Returned []
  | section :: rest =>
      if str_eqb (name section) section_name
      then map_outcome (fun s => s :: rest) (swap_in_section section field1_id field2_id)
      else map_outcome (cons section) (swap_fields rest section_name field1_id field2_id)
  end.

(** ** The handlers of the page *)

(** The drag handle button of [render_field(field, section)]. *)
Definition click_drag_handle (section : LayoutSection) (field : LayoutField)
  (st : SessionState) : outcome SessionState :=
  let select := mkState (sections st) (Some (name section, label field, id field))
                  (show_hidden_panel st) in
  match selected_field st with
  | Some (sel_section, _, sel_id) =>
      if str_eqb sel_section (name section) && negb (str_eqb sel_id (id field))
      then
        match swap_fields (sections st) (name section) sel_id (id field) with
        | Returned secs => Returned (mkState secs None (show_hidden_panel st))
        | Raised e secs => Raised e (mkState secs (selected_field st) (show_hidden_panel st))
        end
      else Returned select
  | None => Returned select
  end.

Definition on_section (si : nat) (g : LayoutSection -> LayoutSection)
  (st : SessionState) : SessionState :=
  mkState (update_at si g (sections st)) (selected_field st) (show_hidden_panel st).

Definition on_field (si fi : nat) (g : LayoutField -> LayoutField)
  (st : SessionState) : SessionState :=
  on_section si (fun s => with_fields s (update_at fi g (fields s))) st.

(** The object a widget belongs to: field [fi] of section [si]. *)
Definition object_at (si fi : nat) (st : SessionState)
  : option (LayoutSection * LayoutField) :=
  match nth_error (sections st) si with
  | None => None
  | Some section =>
      match nth_error (fields section) fi with
      | None => None
      | Some field => Some (section, field)
      end
  end.

(** The hide button of [render_field]: [field.visible = False], and the
    selection is dropped when it carries the id of that field. *)
Definition hide_field (si fi : nat) (st : SessionState) : SessionState :=
  match object_at si fi st with
  | None => st
  | Some (_, field) =>
      let st' := on_field si fi (fun f => with_visible f false) st in
      match selected_field st' with
      | Some (_, _, sel_id) =>
          if str_eqb sel_id (id field)
          then mkState (sections st') None (show_hidden_panel st')
          else st'
      | None => st'
      end
  end.

(** The button of a field in the hidden panel: [field.visible = True]. *)
Definition unhide_field (si fi : nat) (st : SessionState) : SessionState :=
  on_field si fi (fun f => with_visible f true) st.

(** The toggle button of a section header. *)
Definition toggle_section (si : nat) (st : SessionState) : SessionState :=
  on_section si (fun s => with_expanded s (negb (expanded s))) st.

(** The panel button of [render_controls]. *)
Definition toggle_hidden_panel (st : SessionState) : SessionState :=
  mkState (sections st) (selected_field st) (negb (show_hidden_panel st)).

(** The reset button of [render_controls]:
    [sections = []], [selected_field = None], [load_original_layout()]. *)
Definition reset_layout (st : SessionState) : SessionState :=
  load_original_layout (mkState [] None (show_hidden_panel st)).

(** What a user can do on the page. *)
Inductive action : Type :=
| ClickHandle (si fi : nat)
| ClickHide (si fi : nat)
| ClickUnhide (si fi : nat)
| ClickSection (si : nat)
| ClickPanel
| ClickReset.

Definition hidden (f : LayoutField) : bool := negb (visible f) && truthy (label f).

(** The widgets on the page: the handle and the hide button of a field are
    there when its section is expanded and the field is listed; the buttons
    of the hidden panel when the panel is open; the panel button when
    [hidden_count > 0]. *)
Definition enabled (a : action) (st : SessionState) : bool :=
  match a with
  | ClickHandle si fi | ClickHide si fi =>
      match object_at si fi st with
      | Some (section, field) => expanded section && shown field
      | None => false
      end
  | ClickUnhide si fi =>
      show_hidden_panel st
      && match object_at si fi st with
         | Some (_, field) => hidden field
         | None => false
         end
  | ClickSection si =>
      match nth_error (sections st) si with Some _ => true | None => false end
  | ClickPanel => existsb (fun s => existsb hidden (fields s)) (sections st)
  | ClickReset => true
  end.

(** One script run for one click on a widget of the page.  An exception
    ends the run; what had been written to the session by then stays. *)
Definition step (a : action) (st : SessionState) : SessionState :=
  if enabled a st then
    match a with
    | ClickHandle si fi =>
        match object_at si fi st with
        | Some (section, field) => state_of (click_drag_handle section field st)
        | None => st
        end
    | ClickHide si fi => hide_field si fi st
    | ClickUnhide si fi => unhide_field si fi st
    | ClickSection si => toggle_section si st
    | ClickPanel => toggle_hidden_panel st
    | ClickReset => reset_layout st
    end
  else st.

Definition run (acts : list action) (st : SessionState) : SessionState :=
  fold_left (fun s a => step a s) acts st.

(** ** What the page shows *)

(** [render_section]: the two counts of the section header. *)
Definition visible_count (section : LayoutSection) : nat :=
  List.length (filter shown (fields section)).

Definition hidden_count (section : LayoutSection) : nat :=
  List.length (filter hidden (fields section)).

(** [render_controls]: [hidden_count], the sum over the sections. *)
Definition total_hidden_count (st : SessionState) : nat :=
  fold_left (fun n s => (n + hidden_count s)%nat) (sections st) 0%nat.

(** [render_hidden_panel]: [all_hidden], built when the panel is open. *)
Definition hidden_of (section : LayoutSection) : list (str * str * LayoutField) :=
  map (fun field => (name section, title section, field))
      (filter hidden (fields section)).

Definition all_hidden (st : SessionState) : list (str * str * LayoutField) :=
  if show_hidden_panel st then flat_map hidden_of (sections st) else [].

(** [__init__] in a session that has its keys: [init_session_state] finds
    them, [load_original_layout] looks at [sections]. *)
Definition construct (st : SessionState) : SessionState :=
  load_original_layout st.

(** One run of the script for an event: the constructor, then the page. *)
Definition script_run (a : action) (st : SessionState) : SessionState :=
  step a (construct st).

(** [render_field]: [is_selected], the field is drawn as selected. *)
Definition is_selected (section : LayoutSection) (field : LayoutField)
  (st : SessionState) : bool :=
  match selected_field st with
  | Some (sel_section, _, sel_id) =>
      str_eqb sel_section (name section) && str_eqb sel_id (id field)
  | None => false
  end.

(** [render_drag_status]: the label named in the status line, if there is
    one. *)
Definition drag_status (st : SessionState) : option str :=
  match selected_field st with
  | Some (_, field_label, _) => Some field_label
  | None => None
  end.

End Simple.

(** * Vocabulary of the statements *)

(** Order on a key. *)
Definition key_lt {A : Type} (key : A -> Z) (a b : A) : Prop := key a < key b.

(** Ascending, and strictly ascending, by position. *)
Definition pos_le (f g : LayoutField) : Prop := position f <= position g.

Definition pos_lt (f g : LayoutField) : Prop := position f < position g.

(** The items of section 1 as the sortable component gives them back when
    the second item is dragged in front of the first. *)
Definition dragged_items (st : Real.SessionState) : list str :=
  match nth_error (Real.sections st) 1 with
  | Some section =>
      match Real.sortable_items section with
      | cad :: account :: rest => account :: cad :: rest
      | items => items
      end
  | None => []
  end.

(** A session of the drag variant in which two listed fields of one section
    carry the same position: hide [parent_us] (position 0), drag
    [parent_account] in front of [parent_cad] (the three listed fields are
    renumbered 0, 1, 2), open the hidden panel, show [parent_us] again. *)
Definition collision_session : Real.SessionState :=
  let st0 := Real.load_original_layout Real.init_session_state in
  let st1 := Real.step (Real.ClickHide 1 0) st0 in
  let st2 := Real.step (Real.Drop 1 (dragged_items st1)) st1 in
  let st3 := Real.step Real.ClickPanel st2 in
  Real.step (Real.ClickUnhide 1 0) st3.

(** Everything of a field but its position. *)
Definition unpositioned (f : LayoutField) : str * str * str * str * bool :=
  (id f, label f, value f, field_type f, visible f).

(** The id of the field is not among [ids]. *)
Definition not_listed (ids : list str) (f : LayoutField) : bool :=
  negb (existsb (str_eqb (id f)) ids).

(** Parent Hierarchy of the seed. *)
Definition parent_section : LayoutSection :=
  mkSection (py "parent_hierarchy") (py "Parent Hierarchy") Real.parent_fields true.

(** Three items for it: [parent_cad], an item without a marker,
    [parent_us]. *)
Definition malformed_items : list str :=
  [ Real.create_field_item (LF_ "parent_cad" "Parent Account TMW CAD" empty "text" true 1)
      (py "parent_hierarchy");
    py "<div>no marker</div>";
    Real.create_field_item (LF_ "parent_us" "Parent Account TMW US" empty "text" true 0)
      (py "parent_hierarchy") ].

(** The fixed text in front of the id in an item: 29 characters, the marker
    at index 14. *)
Definition ITEM_HEAD : str :=
  [LF] ++ Real.spaces 8 ++ py "<div " ++ Real.ID_MARKER.

(** The index of the first occurrence of [a] in [ids]. *)
Fixpoint index_of (a : str) (ids : list str) : option nat :=
  match ids with
  | [] => None
  | b :: r => if str_eqb a b then Some O else option_map S (index_of a r)
  end.

(** What the loop started at index [i] makes of a field, when ids are
    unique. *)
Definition renumber (i : nat) (ids : list str) (f : LayoutField) : LayoutField :=
  match index_of (id f) ids with
  | Some j => with_position f (Z.of_nat (i + j))
  | None => f
  end.

(** The session of the swap variant when the page is first run. *)
Definition seed_session : Simple.SessionState :=
  Simple.load_original_layout Simple.init_session_state.

(** The section a name stands for in [swap_fields]: the first of that
    name. *)
Definition lookup_section (section_name : str) (secs : list LayoutSection)
  : option LayoutSection :=
  find (fun s => str_eqb (name s) section_name) secs.

(** What the tuple assignment makes of a field, when ids are unique: the
    field of id [a] gets [pb], the field of id [b] gets [pa]. *)
Definition swap_pos (a b : str) (pa pb : Z) (f : LayoutField) : LayoutField :=
  if str_eqb (id f) a then with_position f pb
  else if str_eqb (id f) b then with_position f pa
  else f.

(** A check of [NoDup] that computes. *)
Fixpoint distinct (l : list str) : bool :=
  match l with
  | [] => true
  | a :: r => negb (existsb (str_eqb a) r) && distinct r
  end.

(** No double quote in the string. *)
Definition quote_free (s : str) : Prop := ~ In DQUOTE s.

(** What every section of the drag variant satisfies: ids are unique and
    none holds a double quote. *)
Definition ids_ok (s : LayoutSection) : Prop :=
  NoDup (map id (fields s)) /\ Forall quote_free (map id (fields s)).

(** [ids_ok], as a check that computes. *)
Definition ids_okb (s : LayoutSection) : bool :=
  distinct (map id (fields s))
  && forallb (fun a => negb (existsb (N.eqb DQUOTE) a)) (map id (fields s)).

(** What every section of the swap variant satisfies: ids are unique and
    [section.fields] is in strictly ascending order of position. *)
Definition in_order (s : LayoutSection) : Prop :=
  NoDup (map id (fields s)) /\ StronglySorted Z.lt (map position (fields s)).

(** What the swap does to the positions of a section: [pa] and [pb]
    change places. *)
Definition transpose (pa pb z : Z) : Z :=
  if z =? pa then pb else if z =? pb then pa else z.

(** [in_order], as a check that computes. *)
Definition in_orderb (s : LayoutSection) : bool :=
  distinct (map id (fields s))
  && (fix ascending (l : list Z) : bool :=
        match l with
        | x :: ((y :: _) as r) => (x <? y) && ascending r
        | _ => true
        end) (map position (fields s)).

(** The position the loop started at index [i] leaves in a field of id [a]
    that had position [p]: the index of the last occurrence of [a] in the
    ids, and [p] when there is none. *)
Fixpoint final_position (i : nat) (ids : list str) (a : str) (p : Z) : Z :=
  match ids with
  | [] => p
  | b :: rest => final_position (S i) rest a (if str_eqb a b then Z.of_nat i else p)
  end.

Definition reposition (i : nat) (ids : list str) (f : LayoutField) : LayoutField :=
  with_position f (final_position i ids (id f) (position f)).

(** What no handler writes in a field: id, label, value and type. *)
Definition immutable (f : LayoutField) : str * str * str * str :=
  (id f, label f, value f, field_type f).

(** [s'] is [s] but for the positions, the visibility and the order of its
    fields, and its expansion. *)
Definition kept (s s' : LayoutSection) : Prop :=
  name s' = name s /\ title s' = title s
  /\ Permutation (map immutable (fields s')) (map immutable (fields s)).

(** The session of the drag variant when the page is first run. *)
Definition real_seed_session : Real.SessionState :=
  Real.load_original_layout Real.init_session_state.

(** The positions of the section are its indices: field [k] of
    [section.fields] has position [k]. *)
Definition indexed (s : LayoutSection) : Prop :=
  NoDup (map id (fields s))
  /\ map position (fields s) = map Z.of_nat (seq 0 (List.length (fields s))).

(** The selection, when there is one, names a section of the session and a
    field of it that is visible and has the label the selection carries. *)
Definition selection_ok (st : Simple.SessionState) : Prop :=
  match Simple.selected_field st with
  | None => True
  | Some (s, l, i) =>
      exists S f,
        In S (Simple.sections st) /\ name S = s
        /\ In f (fields S) /\ id f = i /\ label f = l /\ shown f = true
  end.

(** * Facts about the shared model *)

Lemma str_eqb_eq (a b : str) : str_eqb a b = true <-> a = b.
Proof.
  unfold str_eqb. destruct (list_eq_dec N.eq_dec a b); split; congruence.
Qed.

Lemma str_eqb_refl (a : str) : str_eqb a a = true.
Proof. now apply str_eqb_eq. Qed.

Lemma str_eqb_neq (a b : str) : str_eqb a b = false <-> a <> b.
Proof.
  unfold str_eqb. destruct (list_eq_dec N.eq_dec a b); split; congruence.
Qed.

(** ** The sort is a stable sort *)

Lemma insert_by_position_perm (f : LayoutField) (l : list LayoutField) :
  Permutation (insert_by_position f l) (f :: l).
Proof.
  induction l as [|g r IH]; simpl.
  - reflexivity.
  - destruct (position f <=? position g).
    + reflexivity.
    + transitivity (g :: f :: r).
      * now constructor.
      * apply perm_swap.
Qed.

Lemma sorted_by_position_perm (l : list LayoutField) :
  Permutation (sorted_by_position l) l.
Proof.
  induction l as [|f r IH]; simpl.
  - reflexivity.
  - rewrite insert_by_position_perm. now constructor.
Qed.

Lemma insert_by_position_sorted (f : LayoutField) (l : list LayoutField) :
  StronglySorted pos_le l -> StronglySorted pos_le (insert_by_position f l).
Proof.
  induction l as [|g r IH]; simpl; intros H.
  - constructor; constructor.
  - inversion H as [|? ? Hr Hg]; subst.
    destruct (Z.leb_spec (position f) (position g)) as [Hle|Hgt].
    + constructor; [assumption|].
      constructor; [exact Hle|].
      eapply Forall_impl; [|exact Hg].
      unfold pos_le. intros; lia.
    + constructor; [now apply IH|].
      eapply Permutation_Forall.
      * symmetry. apply insert_by_position_perm.
      * constructor; [unfold pos_le; lia | assumption].
Qed.

Lemma sorted_by_position_sorted (l : list LayoutField) :
  StronglySorted pos_le (sorted_by_position l).
Proof.
  induction l as [|f r IH]; simpl.
  - constructor.
  - now apply insert_by_position_sorted.
Qed.

(** An element that is not greater than any other goes to the front. *)
Lemma insert_by_position_front (f : LayoutField) (l : list LayoutField) :
  Forall (pos_le f) l -> insert_by_position f l = f :: l.
Proof.
  destruct l as [|g r]; simpl; intros H; [reflexivity|].
  inversion H as [|? ? Hg _]; subst. unfold pos_le in Hg.
  destruct (Z.leb_spec (position f) (position g)); [reflexivity | lia].
Qed.

(** Sorting a sorted list changes nothing. *)
Lemma sorted_by_position_id (l : list LayoutField) :
  StronglySorted pos_le l -> sorted_by_position l = l.
Proof.
  induction 1 as [|f r Hr IH Hf]; simpl; [reflexivity|].
  rewrite IH. now apply insert_by_position_front.
Qed.

Lemma sorted_by_position_idem (l : list LayoutField) :
  sorted_by_position (sorted_by_position l) = sorted_by_position l.
Proof. apply sorted_by_position_id, sorted_by_position_sorted. Qed.

Lemma Forall_filter_keep {A : Type} (P : A -> Prop) (q : A -> bool) (l : list A) :
  Forall P l -> Forall P (filter q l).
Proof.
  induction 1 as [|x r Hx Hr IH]; simpl; [constructor|].
  destruct (q x); [now constructor | assumption].
Qed.

Lemma StronglySorted_filter {A : Type} (R : A -> A -> Prop) (q : A -> bool) (l : list A) :
  StronglySorted R l -> StronglySorted R (filter q l).
Proof.
  induction 1 as [|x r Hr IH Hx]; simpl; [constructor|].
  destruct (q x); [|assumption].
  constructor; [assumption | now apply Forall_filter_keep].
Qed.

(** Stability: a filter may be taken before or after the sort. *)
Lemma filter_insert_by_position (q : LayoutField -> bool) (f : LayoutField)
  (l : list LayoutField) :
  StronglySorted pos_le l ->
  filter q (insert_by_position f l) =
  if q f then insert_by_position f (filter q l) else filter q l.
Proof.
  induction 1 as [|g r Hr IH Hg]; simpl.
  - destruct (q f); reflexivity.
  - destruct (Z.leb_spec (position f) (position g)) as [Hle|Hgt]; simpl.
    + destruct (q f) eqn:Hqf; [|reflexivity].
      symmetry. apply insert_by_position_front.
      change (Forall (pos_le f) (filter q (g :: r))).
      apply Forall_filter_keep. constructor; [exact Hle|].
      eapply Forall_impl; [|exact Hg]. unfold pos_le; intros; lia.
    + rewrite IH. destruct (q g) eqn:Hqg, (q f) eqn:Hqf; simpl; try reflexivity.
      destruct (Z.leb_spec (position f) (position g)); [lia | reflexivity].
Qed.

Lemma filter_sorted_by_position (q : LayoutField -> bool) (l : list LayoutField) :
  filter q (sorted_by_position l) = sorted_by_position (filter q l).
Proof.
  induction l as [|f r IH]; simpl; [reflexivity|].
  rewrite filter_insert_by_position by apply sorted_by_position_sorted.
  rewrite IH. destruct (q f); reflexivity.
Qed.

(** Fields with the same position keep their relative order. *)
Lemma sorted_by_position_stable (p : Z) (l : list LayoutField) :
  filter (fun f => position f =? p) (sorted_by_position l) =
  filter (fun f => position f =? p) l.
Proof.
  rewrite filter_sorted_by_position.
  apply sorted_by_position_id.
  induction l as [|f r IH]; simpl; [constructor|].
  destruct (Z.eqb_spec (position f) p) as [Hp|Hp]; [|assumption].
  constructor; [assumption|].
  apply Forall_forall. intros g Hg. apply filter_In in Hg as [_ Hg].
  apply Z.eqb_eq in Hg. unfold pos_le. lia.
Qed.

(** ** Strictly sorted lists are determined by their elements *)
Section StrictlySorted.
Context {A : Type} (key : A -> Z).

Lemma strictly_sorted_perm_eq (l l' : list A) :
  StronglySorted (key_lt key) l -> StronglySorted (key_lt key) l' ->
  Permutation l l' -> l = l'.
Proof.
  intros Hl. revert l'.
  induction Hl as [|a r Hr IH Ha]; intros l' Hl' HP.
  - now apply Permutation_nil in HP.
  - destruct l' as [|b r'].
    + symmetry in HP. now apply Permutation_nil in HP.
    + inversion Hl' as [|? ? Hr' Hb]; subst.
      assert (Hab : a = b).
      { assert (Ia : In a (b :: r')) by (eapply Permutation_in; [exact HP | now left]).
        destruct Ia as [->|Ia]; [reflexivity|].
        assert (Ib : In b (a :: r)).
        { eapply Permutation_in; [symmetry; exact HP | now left]. }
        destruct Ib as [->|Ib]; [reflexivity|].
        rewrite Forall_forall in Ha, Hb.
        specialize (Ha _ Ib). specialize (Hb _ Ia).
        unfold key_lt in *. lia. }
      subst b. f_equal. apply IH; [assumption|].
      eapply Permutation_cons_inv; exact HP.
Qed.

Lemma sorted_nodup_strict (l : list A) :
  StronglySorted (fun a b => key a <= key b) l -> NoDup (map key l) ->
  StronglySorted (key_lt key) l.
Proof.
  induction 1 as [|a r Hr IH Ha]; simpl; intros HN; [constructor|].
  inversion HN as [|? ? Hnot HN']; subst.
  constructor; [now apply IH|].
  rewrite Forall_forall in *. intros x Hx.
  specialize (Ha _ Hx). unfold key_lt.
  assert (key a <> key x).
  { intros E. apply Hnot. rewrite E. now apply in_map. }
  lia.
Qed.

End StrictlySorted.

(** With pairwise distinct positions the sort depends on the elements only,
    not on the order they come in. *)
Lemma sorted_by_position_perm_eq (l l' : list LayoutField) :
  Permutation l l' -> NoDup (map position l) ->
  sorted_by_position l = sorted_by_position l'.
Proof.
  intros HP HN.
  assert (HPs : Permutation (sorted_by_position l) (sorted_by_position l')).
  { rewrite !sorted_by_position_perm. exact HP. }
  apply (strictly_sorted_perm_eq position); [| |exact HPs].
  - apply sorted_nodup_strict; [apply sorted_by_position_sorted|].
    eapply Permutation_NoDup; [|exact HN].
    apply Permutation_map. symmetry. apply sorted_by_position_perm.
  - apply sorted_nodup_strict; [apply sorted_by_position_sorted|].
    eapply Permutation_NoDup; [|exact HN].
    apply Permutation_map. rewrite sorted_by_position_perm. exact HP.
Qed.

(** * The visible-field listing *)

Lemma shown_spec (f : LayoutField) :
  shown f = true <-> visible f = true /\ label f <> [].
Proof.
  unfold shown. rewrite andb_true_iff. destruct (label f); simpl; intuition congruence.
Qed.

Lemma visible_fields_strict (S : LayoutSection) :
  NoDup (map position (fields S)) -> StronglySorted pos_lt (visible_fields S).
Proof.
  intros HN. unfold visible_fields, sorted_fields. apply StronglySorted_filter.
  apply (sorted_nodup_strict position); [apply sorted_by_position_sorted|].
  eapply Permutation_NoDup; [|exact HN].
  apply Permutation_map. symmetry. apply sorted_by_position_perm.
Qed.

(** C3, as the code has it: the listing of a section holds only fields that
    are visible and have a label, in ascending order of position; fields of
    equal position come in the order of [section.fields]; the order is
    strictly ascending when the positions of the section are pairwise
    distinct. *)
Theorem visible_fields_shown_and_ascending (S : LayoutSection) :
  Forall (fun f => visible f = true /\ label f <> []) (visible_fields S)
  /\ StronglySorted pos_le (visible_fields S)
  /\ (forall p, filter (fun f => position f =? p) (visible_fields S)
               = filter (fun f => position f =? p) (filter shown (fields S)))
  /\ (NoDup (map position (fields S)) -> StronglySorted pos_lt (visible_fields S)).
Proof.
  unfold visible_fields, sorted_fields. repeat split.
  - apply Forall_forall. intros f Hf.
    apply filter_In in Hf as [_ Hf]. now apply shown_spec.
  - apply StronglySorted_filter, sorted_by_position_sorted.
  - intros p. rewrite filter_sorted_by_position. apply sorted_by_position_stable.
  - apply (visible_fields_strict S).
Qed.

(** Parent Hierarchy of the seed: positions 0, 1, 2, 3. *)
Lemma visible_fields_shown_and_ascending_witness :
  let S := mkSection (py "parent_hierarchy") (py "Parent Hierarchy") Simple.parent_fields true in
  NoDup (map position (fields S)) /\ StronglySorted pos_lt (visible_fields S).
Proof.
  intros S.
  assert (HN : NoDup (map position (fields S))).
  { vm_compute. repeat constructor; simpl; intuition discriminate. }
  split; [exact HN|].
  exact (proj2 (proj2 (proj2 (visible_fields_shown_and_ascending S))) HN).
Defined.

(** C3 as stated fails: in [collision_session] the listing of Parent
    Hierarchy has positions 0, 0, 1, 2. *)
Lemma visible_fields_not_strictly_ascending :
  exists S, nth_error (Real.sections collision_session) 1 = Some S
    /\ map position (visible_fields S) = [0; 0; 1; 2]
    /\ ~ StronglySorted pos_lt (visible_fields S).
Proof.
  eexists. split; [vm_compute; reflexivity|].
  split; [vm_compute; reflexivity|].
  intros H.
  inversion H as [|f r _ HF]; subst.
  inversion HF as [|g r' Hlt _]; subst.
  vm_compute in Hlt. discriminate Hlt.
Qed.

(** * Objects found by id *)

Lemma next_field_Some (a : str) (fs : list LayoutField) (k : nat) :
  next_field a fs = Some k -> exists f, nth_error fs k = Some f /\ id f = a.
Proof.
  revert k. induction fs as [|f r IH]; simpl; intros k H; [discriminate|].
  destruct (str_eqb (id f) a) eqn:E.
  - injection H as <-. exists f. split; [reflexivity | now apply str_eqb_eq].
  - destruct (next_field a r) as [k'|]; [|discriminate].
    injection H as <-. simpl. now apply IH.
Qed.

Lemma next_field_None (a : str) (fs : list LayoutField) :
  next_field a fs = None <-> ~ In a (map id fs).
Proof.
  induction fs as [|f r IH]; simpl.
  - intuition.
  - destruct (str_eqb (id f) a) eqn:E.
    + apply str_eqb_eq in E. split; [discriminate | intros H; exfalso; apply H; now left].
    + apply str_eqb_neq in E. destruct (next_field a r); simpl.
      * split; [discriminate|]. intros H.
        assert (Hr : ~ In a (map id r)) by tauto.
        apply IH in Hr. discriminate Hr.
      * split; [|reflexivity]. intros _ [H|H]; [contradiction|].
        revert H. now apply IH.
Qed.

Lemma next_field_In (a : str) (fs : list LayoutField) :
  In a (map id fs) -> exists k, next_field a fs = Some k.
Proof.
  intros H. destruct (next_field a fs) as [k|] eqn:E; [now exists k|].
  now apply next_field_None in E.
Qed.

Lemma update_at_map {A B : Type} (h : A -> B) (g : A -> A) (k : nat) (l : list A) :
  (forall x, h (g x) = h x) -> map h (update_at k g l) = map h l.
Proof.
  intros Hg. revert k. induction l as [|x r IH]; intros [|k]; simpl; try reflexivity.
  - now rewrite Hg.
  - now rewrite IH.
Qed.

Lemma update_at_nth_other {A : Type} (g : A -> A) (k j : nat) (l : list A) :
  j <> k -> nth_error (update_at k g l) j = nth_error l j.
Proof.
  revert k j. induction l as [|x r IH]; intros [|k] [|j] H; simpl; try reflexivity.
  - contradiction.
  - apply IH. congruence.
Qed.

Lemma filter_update_at {A : Type} (q : A -> bool) (g : A -> A) (k : nat) (l : list A) :
  (forall x, nth_error l k = Some x -> q x = false /\ q (g x) = false) ->
  filter q (update_at k g l) = filter q l.
Proof.
  revert k. induction l as [|x r IH]; intros [|k] H; simpl; try reflexivity.
  - destruct (H x eq_refl) as [-> ->]. reflexivity.
  - rewrite IH; [reflexivity|]. intros y Hy. now apply H.
Qed.

(** With unique ids, writing to the first field of an id is writing to
    every field of that id. *)
Lemma update_first_as_map (a : str) (g : LayoutField -> LayoutField)
  (fs : list LayoutField) (k : nat) :
  NoDup (map id fs) -> next_field a fs = Some k ->
  update_at k g fs = map (fun f => if str_eqb (id f) a then g f else f) fs.
Proof.
  revert k. induction fs as [|f r IH]; simpl; intros k HN H; [discriminate|].
  inversion HN as [|? ? Hnot HN']; subst.
  destruct (str_eqb (id f) a) eqn:E.
  - injection H as <-. simpl. f_equal.
    apply str_eqb_eq in E. subst a.
    clear IH HN HN'. induction r as [|h t IHt]; simpl; [reflexivity|].
    destruct (str_eqb (id h) (id f)) eqn:E'.
    + apply str_eqb_eq in E'. exfalso. apply Hnot. left. exact E'.
    + f_equal. apply IHt. intros Hin. apply Hnot. now right.
  - destruct (next_field a r) as [k'|]; [|discriminate].
    injection H as <-. simpl. f_equal. now apply IH.
Qed.

(** ** The frame of the reorder loop *)

Lemma not_listed_spec (ids : list str) (f : LayoutField) :
  not_listed ids f = true <-> ~ In (id f) ids.
Proof.
  unfold not_listed. rewrite negb_true_iff.
  split.
  - intros H Hin.
    assert (existsb (str_eqb (id f)) ids = true); [|congruence].
    apply existsb_exists. exists (id f). split; [exact Hin | apply str_eqb_refl].
  - intros H. destruct (existsb (str_eqb (id f)) ids) eqn:E; [|reflexivity].
    apply existsb_exists in E as [x [Hx Ex]]. apply str_eqb_eq in Ex. subst x.
    contradiction.
Qed.

Lemma assign_positions_unpositioned (ids : list str) :
  forall i fs,
    map unpositioned (state_of (Real.assign_positions i ids fs)) = map unpositioned fs.
Proof.
  induction ids as [|a rest IH]; simpl; intros i fs; [reflexivity|].
  destruct (next_field a fs) as [k|]; simpl; [|reflexivity].
  rewrite IH. unfold set_position. now apply update_at_map.
Qed.

Lemma assign_positions_ids (ids : list str) (i : nat) (fs : list LayoutField) :
  map id (state_of (Real.assign_positions i ids fs)) = map id fs.
Proof.
  pose proof (assign_positions_unpositioned ids i fs) as H.
  apply (f_equal (map (fun u => fst (fst (fst (fst u)))))) in H.
  rewrite !map_map in H. exact H.
Qed.

(** The loop leaves the objects whose id it is not given as they are, at
    the index where they are. *)
Lemma assign_positions_other_objects (ids : list str) :
  forall i fs j f,
    nth_error fs j = Some f -> ~ In (id f) ids ->
    nth_error (state_of (Real.assign_positions i ids fs)) j = Some f.
Proof.
  induction ids as [|a rest IH]; simpl; intros i fs j f Hj Hnot; [exact Hj|].
  destruct (next_field a fs) as [k|] eqn:E; simpl; [|exact Hj].
  apply IH; [|intros H; apply Hnot; now right].
  unfold set_position. rewrite update_at_nth_other; [exact Hj|].
  intros ->. apply next_field_Some in E as [f' [Hf' Hid]].
  rewrite Hj in Hf'. injection Hf' as <-. apply Hnot. left. now symmetry.
Qed.

Lemma assign_positions_not_listed (ids0 ids : list str) :
  incl ids ids0 ->
  forall i fs,
    filter (not_listed ids0) (state_of (Real.assign_positions i ids fs))
    = filter (not_listed ids0) fs.
Proof.
  induction ids as [|a rest IH]; simpl; intros Hincl i fs; [reflexivity|].
  destruct (next_field a fs) as [k|] eqn:E; simpl; [|reflexivity].
  rewrite IH by (intros x Hx; apply Hincl; now right).
  unfold set_position. apply filter_update_at.
  intros f Hf. apply next_field_Some in E as [f' [Hf' Hid]].
  rewrite Hf in Hf'. injection Hf' as <-.
  assert (Hin : In (id f) ids0) by (apply Hincl; left; now symmetry).
  split.
  - destruct (not_listed ids0 f) eqn:N; [|reflexivity].
    apply not_listed_spec in N. contradiction.
  - destruct (not_listed ids0 (with_position f (Z.of_nat i))) eqn:N; [|reflexivity].
    apply not_listed_spec in N. contradiction.
Qed.

(** * The drag reorder *)

(** C6: whatever the answer of the sortable component, the fields of the
    section whose id is not among the recovered ids are the same after
    [update_field_order] as before, position included; also when the call
    raises. *)
Theorem update_field_order_keeps_unlisted (S : LayoutSection) (sorted_items : list str) :
  let ids := Real.extract_field_ids sorted_items in
  let S' := state_of (Real.update_field_order S sorted_items) in
  Permutation (filter (not_listed ids) (fields S')) (filter (not_listed ids) (fields S))
  /\ forall f, In f (fields S) -> ~ In (id f) ids -> In f (fields S').
Proof.
  intros ids S'.
  assert (HP : Permutation (filter (not_listed ids) (fields S'))
                 (filter (not_listed ids) (fields S))).
  { subst S'. unfold Real.update_field_order. fold ids.
    pose proof (assign_positions_not_listed ids ids (incl_refl _) 0 (fields S)) as H.
    destruct (Real.assign_positions 0 ids (fields S)) as [fs|e fs]; simpl in *.
    - rewrite filter_sorted_by_position, sorted_by_position_perm, H. reflexivity.
    - now rewrite H. }
  split; [exact HP|].
  intros f Hf Hnot.
  assert (In f (filter (not_listed ids) (fields S'))) as Hin.
  { eapply Permutation_in; [symmetry; exact HP|].
    apply filter_In. split; [exact Hf | now apply not_listed_spec]. }
  now apply filter_In in Hin.
Qed.

(** Customer Success of the seed, its listed fields dragged into reverse
    order: the placeholder [empty1] is still there, at position 5. *)
Lemma update_field_order_keeps_unlisted_witness :
  let S := mkSection (py "customer_success") (py "Customer Success") Real.success_fields true in
  let items := rev (Real.sortable_items S) in
  let f := LF_ "empty1" empty empty "text" false 5 in
  In f (fields S) /\ ~ In (id f) (Real.extract_field_ids items)
  /\ In f (fields (state_of (Real.update_field_order S items))).
Proof.
  intros S items f.
  assert (Hf : In f (fields S)).
  { vm_compute. do 5 right. left. reflexivity. }
  assert (Hn : ~ In (id f) (Real.extract_field_ids items)).
  { apply not_listed_spec. vm_compute. reflexivity. }
  split; [exact Hf|]. split; [exact Hn|].
  exact (proj2 (update_field_order_keeps_unlisted S items) f Hf Hn).
Defined.

Lemma extract_field_ids_skips (items : list str) :
  Real.extract_field_ids (filter (str_in Real.ID_MARKER) items)
  = Real.extract_field_ids items.
Proof.
  induction items as [|it r IH]; simpl; [reflexivity|].
  destruct (str_in Real.ID_MARKER it) eqn:E; simpl; [|exact IH].
  rewrite E, IH. reflexivity.
Qed.

Lemma assign_positions_returns (ids : list str) :
  forall i fs,
    Forall (fun a => In a (map id fs)) ids ->
    exists fs', Real.assign_positions i ids fs = Returned fs'.
Proof.
  induction ids as [|a rest IH]; simpl; intros i fs H.
  - now exists fs.
  - inversion H as [|? ? Ha Hrest]; subst.
    destruct (next_field_In a fs Ha) as [k ->].
    apply IH. unfold set_position.
    rewrite update_at_map by reflexivity. exact Hrest.
Qed.

Lemma assign_positions_raises (ids : list str) :
  forall i fs,
    ~ Forall (fun a => In a (map id fs)) ids ->
    exists fs', Real.assign_positions i ids fs = Raised StopIteration fs'.
Proof.
  induction ids as [|a rest IH]; simpl; intros i fs H.
  - exfalso. apply H. constructor.
  - destruct (next_field a fs) as [k|] eqn:E; [|now exists fs].
    apply IH. unfold set_position.
    rewrite update_at_map by reflexivity.
    intros Hrest. apply H. constructor; [|exact Hrest].
    apply next_field_Some in E as [f [Hf <-]].
    apply in_map. eapply nth_error_In. exact Hf.
Qed.

(** C2 as stated fails: one item carries no field identity and two listed
    fields are missing, yet the call returns and [parent_cad] and
    [parent_us] have changed places. *)
Lemma malformed_reorder_is_applied :
  existsb (fun item => negb (str_in Real.ID_MARKER item)) malformed_items = true
  /\ ~ Permutation (Real.extract_field_ids malformed_items)
         (map id (visible_fields parent_section))
  /\ exists S', Real.update_field_order parent_section malformed_items = Returned S'
       /\ map (fun f => (id f, position f)) (fields parent_section)
          = [(py "parent_us", 0); (py "parent_cad", 1);
             (py "parent_account", 2); (py "parent_netsuite", 3)]
       /\ map (fun f => (id f, position f)) (fields S')
          = [(py "parent_cad", 0); (py "parent_us", 1);
             (py "parent_account", 2); (py "parent_netsuite", 3)].
Proof.
  split; [vm_compute; reflexivity|].
  split.
  - intros HP. apply Permutation_length in HP. vm_compute in HP. discriminate HP.
  - eexists. split; [vm_compute; reflexivity|].
    split; vm_compute; reflexivity.
Qed.

(** An id that no field of the section has: the positions given before it
    stay written, and the fields are not sorted again. *)
Example unknown_id_reorder_is_partial :
  let unknown := Real.create_field_item (LF_ "nobody" "Nobody" empty "text" true 0) [] in
  exists S',
    Real.update_field_order parent_section (malformed_items ++ [unknown])
    = Raised StopIteration S'
    /\ map (fun f => (id f, position f)) (fields S')
       = [(py "parent_us", 1); (py "parent_cad", 0);
          (py "parent_account", 2); (py "parent_netsuite", 3)].
Proof.
  eexists. split; vm_compute; reflexivity.
Qed.

(** * The field id survives rendering *)

Lemma create_field_item_shape (field : LayoutField) (section_name : str) :
  exists rest,
    Real.create_field_item field section_name
    = ITEM_HEAD ++ id field ++ DQUOTE :: rest.
Proof.
  eexists. unfold Real.create_field_item, ITEM_HEAD.
  rewrite <- !app_assoc. reflexivity.
Qed.

Lemma len_nonneg (s : str) : 0 <= len s.
Proof. unfold len. lia. Qed.

Lemma py_find_from_0 (sub s : str) : py_find sub s 0 = find_at sub s 0.
Proof.
  unfold py_find, slice_bound. pose proof (len_nonneg s) as H.
  destruct (Z.ltb_spec (len s) 0) as [Hl|Hl]; [lia|].
  change (0 <? 0) with false. cbv iota.
  rewrite Z.min_l by lia. reflexivity.
Qed.

Lemma find_at_quote (x rest : str) (i : Z) :
  ~ In DQUOTE x -> find_at [DQUOTE] (x ++ DQUOTE :: rest) i = i + len x.
Proof.
  revert i. induction x as [|c r IH]; intros i H.
  - cbn. unfold len. simpl. lia.
  - cbn [find_at starts_with app].
    destruct (N.eqb_spec DQUOTE c) as [E|E].
    + exfalso. apply H. left. now symmetry.
    + cbn [andb]. rewrite IH by (intros Hin; apply H; now right).
      unfold len. cbn [List.length]. lia.
Qed.

Lemma parse_field_id_item (x rest : str) :
  ~ In DQUOTE x ->
  str_in Real.ID_MARKER (ITEM_HEAD ++ x ++ DQUOTE :: rest) = true
  /\ Real.parse_field_id (ITEM_HEAD ++ x ++ DQUOTE :: rest) = x.
Proof.
  intros Hx.
  set (item := ITEM_HEAD ++ x ++ DQUOTE :: rest).
  assert (Hfind : py_find Real.ID_MARKER item 0 = 14).
  { rewrite py_find_from_0. reflexivity. }
  assert (Hlen : len item = 29 + len x + 1 + len rest).
  { unfold item, len. rewrite !length_app. simpl List.length. lia. }
  split.
  - unfold str_in. rewrite Hfind. reflexivity.
  - unfold Real.parse_field_id. rewrite Hfind.
    change (14 + 15) with 29.
    pose proof (len_nonneg x) as Hx0. pose proof (len_nonneg rest) as Hr0.
    assert (Hb : slice_bound item 29 = 29).
    { unfold slice_bound. change (29 <? 0) with false. cbv iota. lia. }
    assert (Hend : py_find [DQUOTE] item 29 = 29 + len x).
    { unfold py_find. rewrite Hb.
      destruct (Z.ltb_spec (len item) 29) as [Hl|Hl]; [lia|].
      change (skipn (Z.to_nat 29) item) with (x ++ DQUOTE :: rest).
      now apply find_at_quote. }
    rewrite Hend. unfold py_slice. rewrite Hb.
    assert (Hb' : slice_bound item (29 + len x) = 29 + len x).
    { unfold slice_bound.
      destruct (Z.ltb_spec (29 + len x) 0) as [Hl|Hl]; lia. }
    rewrite Hb'.
    change (skipn (Z.to_nat 29) item) with (x ++ DQUOTE :: rest).
    replace (Z.to_nat (29 + len x - 29)) with (List.length x) by (unfold len; lia).
    rewrite firstn_app, Nat.sub_diag, firstn_all. simpl. apply app_nil_r.
Qed.

(** An id without a double quote is read back from the item of its field. *)
Lemma parse_field_id_create_field_item (field : LayoutField) (section_name : str) :
  ~ In DQUOTE (id field) ->
  str_in Real.ID_MARKER (Real.create_field_item field section_name) = true
  /\ Real.parse_field_id (Real.create_field_item field section_name) = id field.
Proof.
  intros H. destruct (create_field_item_shape field section_name) as [rest ->].
  now apply parse_field_id_item.
Qed.

Lemma extract_field_ids_rendered (section_name : str) (fs : list LayoutField) :
  Forall (fun f => ~ In DQUOTE (id f)) fs ->
  Real.extract_field_ids (map (fun f => Real.create_field_item f section_name) fs)
  = map id fs.
Proof.
  induction 1 as [|f r Hf Hr IH]; [reflexivity|].
  cbn [map Real.extract_field_ids].
  destruct (parse_field_id_create_field_item f section_name Hf) as [-> ->].
  now rewrite IH.
Qed.

Lemma extract_field_ids_perm (items items' : list str) :
  Permutation items items' ->
  Permutation (Real.extract_field_ids items) (Real.extract_field_ids items').
Proof.
  induction 1 as [|it l l' HP IH|it it' l|l l' l'' HP1 IH1 HP2 IH2]; simpl.
  - reflexivity.
  - destruct (str_in Real.ID_MARKER it); [now constructor | exact IH].
  - destruct (str_in Real.ID_MARKER it), (str_in Real.ID_MARKER it');
      try reflexivity. apply perm_swap.
  - etransitivity; eassumption.
Qed.

(** What the sortable component gives back is its items in another order;
    the ids recovered from that are then a permutation of the listed ids. *)
Lemma dropped_items_ids (S : LayoutSection) (sorted_items : list str) :
  Forall (fun f => ~ In DQUOTE (id f)) (fields S) ->
  Permutation sorted_items (Real.sortable_items S) ->
  Permutation (Real.extract_field_ids sorted_items) (map id (visible_fields S)).
Proof.
  intros Hq HP. rewrite (extract_field_ids_perm _ _ HP).
  unfold Real.sortable_items. rewrite extract_field_ids_rendered; [reflexivity|].
  apply Forall_forall. intros f Hf.
  unfold visible_fields, sorted_fields in Hf.
  apply filter_In in Hf as [Hf _].
  rewrite Forall_forall in Hq. apply Hq.
  eapply Permutation_in; [apply sorted_by_position_perm | exact Hf].
Qed.

(** ** The loop as a renumbering *)

Lemma index_of_None (a : str) (ids : list str) :
  ~ In a ids -> index_of a ids = None.
Proof.
  induction ids as [|b r IH]; simpl; intros H; [reflexivity|].
  destruct (str_eqb a b) eqn:E.
  - apply str_eqb_eq in E. exfalso. apply H. left. now symmetry.
  - rewrite IH; [reflexivity|]. intros Hin. apply H. now right.
Qed.

Lemma index_of_In (a : str) (ids : list str) :
  In a ids -> exists j, index_of a ids = Some j.
Proof.
  induction ids as [|b r IH]; simpl; intros H; [contradiction|].
  destruct (str_eqb a b) eqn:E; [now exists O|].
  destruct H as [H|H].
  - apply str_eqb_neq in E. congruence.
  - destruct (IH H) as [j ->]. now exists (S j).
Qed.

Lemma index_of_Some (a : str) (ids : list str) (j : nat) :
  index_of a ids = Some j -> nth_error ids j = Some a.
Proof.
  revert j. induction ids as [|b r IH]; simpl; intros j H; [discriminate|].
  destruct (str_eqb a b) eqn:E.
  - injection H as <-. apply str_eqb_eq in E. now subst.
  - destruct (index_of a r) as [j'|]; [|discriminate].
    injection H as <-. simpl. now apply IH.
Qed.

Lemma index_of_self_seq (ids : list str) :
  NoDup ids -> map (fun a => index_of a ids) ids = map Some (seq 0 (List.length ids)).
Proof.
  induction 1 as [|b r Hb Hr IH]; simpl; [reflexivity|].
  rewrite str_eqb_refl. f_equal.
  rewrite <- seq_shift, map_map.
  transitivity (map (option_map S) (map (fun a => index_of a r) r)).
  - rewrite map_map. apply map_ext_in. intros a Ha.
    destruct (str_eqb a b) eqn:E; [|reflexivity].
    apply str_eqb_eq in E. subst. contradiction.
  - rewrite IH, map_map. reflexivity.
Qed.

Lemma renumber_unpositioned (i : nat) (ids : list str) (f : LayoutField) :
  unpositioned (renumber i ids f) = unpositioned f.
Proof. unfold renumber. destruct (index_of (id f) ids); reflexivity. Qed.

Lemma renumber_id (i : nat) (ids : list str) (f : LayoutField) :
  id (renumber i ids f) = id f.
Proof. unfold renumber. destruct (index_of (id f) ids); reflexivity. Qed.

Lemma renumber_shown (i : nat) (ids : list str) (f : LayoutField) :
  shown (renumber i ids f) = shown f.
Proof. unfold renumber. destruct (index_of (id f) ids); reflexivity. Qed.

Lemma assign_positions_as_map (ids : list str) :
  NoDup ids ->
  forall i fs,
    NoDup (map id fs) -> incl ids (map id fs) ->
    Real.assign_positions i ids fs = Returned (map (renumber i ids) fs).
Proof.
  induction 1 as [|a rest Ha Hrest IH]; simpl; intros i fs HN Hincl.
  - f_equal. symmetry. rewrite <- (map_id fs) at 2. now apply map_ext.
  - destruct (next_field_In a fs (Hincl a (or_introl eq_refl))) as [k Hk].
    rewrite Hk. unfold set_position.
    rewrite (update_first_as_map a _ fs k HN Hk).
    set (upd := fun f => if str_eqb (id f) a then with_position f (Z.of_nat i) else f).
    assert (Hids : map id (map upd fs) = map id fs).
    { rewrite map_map. apply map_ext. intros f. unfold upd.
      destruct (str_eqb (id f) a); reflexivity. }
    rewrite IH.
    + f_equal. rewrite map_map. apply map_ext. intros f.
      unfold upd, renumber. simpl.
      destruct (str_eqb (id f) a) eqn:E; simpl.
      * apply str_eqb_eq in E. rewrite E, (index_of_None a rest Ha).
        now rewrite Nat.add_0_r.
      * destruct (index_of (id f) rest) as [j|]; simpl; [|reflexivity].
        do 2 f_equal. lia.
    + now rewrite Hids.
    + rewrite Hids. intros x Hx. apply Hincl. now right.
Qed.

(** ** Sorting renumbered fields *)

Lemma map_nth_seq {A : Type} (d : A) (l : list A) :
  map (fun j => nth j l d) (seq 0 (List.length l)) = l.
Proof.
  induction l as [|x r IH]; simpl; [reflexivity|].
  f_equal. rewrite <- seq_shift, map_map. exact IH.
Qed.

Lemma StronglySorted_seq (lo n : nat) :
  StronglySorted (key_lt (fun z : Z => z)) (map Z.of_nat (seq lo n)).
Proof.
  revert lo. induction n as [|n IH]; intros lo; simpl; constructor; [apply IH|].
  apply Forall_forall. intros z Hz.
  apply in_map_iff in Hz as [j [<- Hj]]. apply in_seq in Hj.
  unfold key_lt. lia.
Qed.

Lemma StronglySorted_map {A B : Type} (h : A -> B) (R : B -> B -> Prop) (l : list A) :
  StronglySorted (fun a b => R (h a) (h b)) l -> StronglySorted R (map h l).
Proof.
  induction 1 as [|x r Hr IH Hx]; simpl; constructor; [assumption|].
  apply Forall_forall. intros y Hy.
  apply in_map_iff in Hy as [z [<- Hz]].
  rewrite Forall_forall in Hx. now apply Hx.
Qed.

Lemma NoDup_map_filter {A B : Type} (h : A -> B) (q : A -> bool) (l : list A) :
  NoDup (map h l) -> NoDup (map h (filter q l)).
Proof.
  induction l as [|x r IH]; simpl; intros H; [constructor|].
  inversion H as [|? ? Hx Hr]; subst.
  destruct (q x); simpl; [|now apply IH].
  constructor; [|now apply IH].
  intros Hin. apply Hx.
  apply in_map_iff in Hin as [y [Hy Hin]].
  apply filter_In in Hin as [Hin _].
  rewrite <- Hy. now apply in_map.
Qed.

Lemma filter_map_same {A : Type} (q : A -> bool) (g : A -> A) (l : list A) :
  (forall x, q (g x) = q x) -> filter q (map g l) = map g (filter q l).
Proof.
  intros Hq. induction l as [|x r IH]; simpl; [reflexivity|].
  rewrite Hq. destruct (q x); simpl; now rewrite IH.
Qed.

(** Fields that carry as position their index in [ids] come out of the
    sort in the order of [ids]. *)
Lemma sorted_by_index_ids (ids : list str) (m : list LayoutField) :
  NoDup ids -> Permutation (map id m) ids ->
  (forall f, In f m ->
     0 <= position f /\ index_of (id f) ids = Some (Z.to_nat (position f))) ->
  map position (sorted_by_position m) = map Z.of_nat (seq 0 (List.length ids))
  /\ map id (sorted_by_position m) = ids.
Proof.
  intros HN HP Hm.
  set (s := sorted_by_position m).
  assert (Hs : Permutation s m) by apply sorted_by_position_perm.
  set (idx := fun a => match index_of a ids with Some j => Z.of_nat j | None => 0 end).
  assert (Hpos : Permutation (map position m) (map Z.of_nat (seq 0 (List.length ids)))).
  { replace (map position m) with (map idx (map id m)).
    - rewrite HP. unfold idx.
      replace (map Z.of_nat (seq 0 (List.length ids)))
        with (map (fun o : option nat => match o with Some j => Z.of_nat j | None => 0 end)
                  (map Some (seq 0 (List.length ids)))).
      + rewrite <- (index_of_self_seq ids HN), map_map. reflexivity.
      + rewrite map_map. reflexivity.
    - rewrite map_map. apply map_ext_in. intros f Hf.
      destruct (Hm f Hf) as [H0 Hi]. unfold idx. rewrite Hi. lia. }
  assert (Hseq : map position s = map Z.of_nat (seq 0 (List.length ids))).
  { apply (strictly_sorted_perm_eq (fun z : Z => z)).
    - apply StronglySorted_map.
      apply (sorted_nodup_strict position); [apply sorted_by_position_sorted|].
      eapply Permutation_NoDup.
      + symmetry. etransitivity; [apply Permutation_map; exact Hs | exact Hpos].
      + apply Finite.Injective_map_NoDup; [intros x y; apply Nat2Z.inj | apply seq_NoDup].
    - apply StronglySorted_seq.
    - etransitivity; [apply Permutation_map; exact Hs | exact Hpos]. }
  split; [exact Hseq|].
  transitivity (map (fun z => nth (Z.to_nat z) ids []) (map position s)).
  - rewrite map_map. apply map_ext_in. intros f Hf.
    assert (Hf' : In f m) by (eapply Permutation_in; [exact Hs | exact Hf]).
    destruct (Hm f Hf') as [_ Hi]. apply index_of_Some in Hi.
    symmetry. now apply nth_error_nth.
  - rewrite Hseq, map_map.
    rewrite <- (map_nth_seq [] ids) at 2.
    apply map_ext. intros j. now rewrite Nat2Z.id.
Qed.

Lemma renumbered_by_index (ids : list str) (W : list LayoutField) :
  Permutation (map id W) ids ->
  forall f, In f (map (renumber 0 ids) W) ->
    0 <= position f /\ index_of (id f) ids = Some (Z.to_nat (position f)).
Proof.
  intros HW f Hf.
  apply in_map_iff in Hf as [g [<- Hg]].
  assert (Hin : In (id g) ids).
  { eapply Permutation_in; [exact HW | now apply in_map]. }
  destruct (index_of_In _ _ Hin) as [j Hj].
  unfold renumber. rewrite Hj. simpl. rewrite Hj, Nat2Z.id.
  split; [lia | reflexivity].
Qed.

(** The reorder returns, and the listing is then the listed fields of
    before, renumbered and sorted. *)
Lemma reorder_by_permutation (S : LayoutSection) (sorted_items : list str) :
  let ids := Real.extract_field_ids sorted_items in
  NoDup (map id (fields S)) ->
  Permutation ids (map id (visible_fields S)) ->
  NoDup ids
  /\ Permutation (map id (filter shown (fields S))) ids
  /\ exists S',
       Real.update_field_order S sorted_items = Returned S'
       /\ visible_fields S'
          = sorted_by_position (map (renumber 0 ids) (filter shown (fields S))).
Proof.
  intros ids. set (l := fields S). intros HNl HP.
  assert (HV : visible_fields S = sorted_by_position (filter shown l)).
  { unfold visible_fields, sorted_fields. apply filter_sorted_by_position. }
  assert (HW : Permutation (map id (filter shown l)) ids).
  { rewrite HP, HV. apply Permutation_map. symmetry. apply sorted_by_position_perm. }
  assert (HNids : NoDup ids).
  { eapply Permutation_NoDup; [exact HW|]. now apply NoDup_map_filter. }
  assert (Hincl : incl ids (map id l)).
  { intros a Ha.
    assert (Ha' : In a (map id (filter shown l))).
    { eapply Permutation_in; [symmetry; exact HW | exact Ha]. }
    apply in_map_iff in Ha' as [f [<- Hf]].
    apply filter_In in Hf as [Hf _]. now apply in_map. }
  split; [exact HNids|]. split; [exact HW|].
  unfold Real.update_field_order. fold ids l.
  rewrite (assign_positions_as_map ids HNids 0 l HNl Hincl).
  eexists. split; [reflexivity|].
  unfold visible_fields, sorted_fields. simpl.
  rewrite sorted_by_position_idem, filter_sorted_by_position.
  now rewrite (filter_map_same shown (renumber 0 ids) l (renumber_shown 0 ids)).
Qed.

(** C1: when the ids recovered from the answer of the sortable component
    are a permutation of the ids of the listed fields of the section (ids
    being unique in a section), [update_field_order] returns, and the
    listing of the section then gives the same fields, numbered 0, 1, 2, ...,
    in exactly the order of the recovered ids. *)
Theorem update_field_order_lists_given_order (S : LayoutSection) (sorted_items : list str) :
  NoDup (map id (fields S)) ->
  Permutation (Real.extract_field_ids sorted_items) (map id (visible_fields S)) ->
  exists S',
    Real.update_field_order S sorted_items = Returned S'
    /\ map id (visible_fields S') = Real.extract_field_ids sorted_items
    /\ map position (visible_fields S')
       = map Z.of_nat (seq 0 (List.length (Real.extract_field_ids sorted_items)))
    /\ Permutation (map unpositioned (visible_fields S'))
         (map unpositioned (visible_fields S)).
Proof.
  intros HNl HP.
  destruct (reorder_by_permutation S sorted_items HNl HP)
    as [HNids [HW [S' [Hret Hlist]]]].
  set (ids := Real.extract_field_ids sorted_items) in *.
  set (W := filter shown (fields S)) in *.
  exists S'. split; [exact Hret|]. rewrite Hlist.
  destruct (sorted_by_index_ids ids (map (renumber 0 ids) W) HNids) as [Hpos Hid].
  - rewrite map_map. rewrite (map_ext _ id (renumber_id 0 ids)). exact HW.
  - now apply renumbered_by_index.
  - split; [exact Hid|]. split; [exact Hpos|].
    rewrite sorted_by_position_perm, map_map.
    rewrite (map_ext _ unpositioned (renumber_unpositioned 0 ids)).
    apply Permutation_map. unfold W, visible_fields, sorted_fields.
    rewrite filter_sorted_by_position. symmetry. apply sorted_by_position_perm.
Qed.

(** Parent Hierarchy of the seed, its four items given back in reverse. *)
Lemma update_field_order_lists_given_order_witness :
  let items := rev (Real.sortable_items parent_section) in
  NoDup (map id (fields parent_section))
  /\ Permutation (Real.extract_field_ids items) (map id (visible_fields parent_section))
  /\ exists S',
       Real.update_field_order parent_section items = Returned S'
       /\ map id (visible_fields S') = Real.extract_field_ids items
       /\ map position (visible_fields S')
          = map Z.of_nat (seq 0 (List.length (Real.extract_field_ids items)))
       /\ Permutation (map unpositioned (visible_fields S'))
            (map unpositioned (visible_fields parent_section)).
Proof.
  intros items.
  assert (HN : NoDup (map id (fields parent_section))).
  { vm_compute. repeat constructor; simpl; intuition discriminate. }
  assert (HP : Permutation (Real.extract_field_ids items)
                 (map id (visible_fields parent_section))).
  { replace (Real.extract_field_ids items)
      with (rev (map id (visible_fields parent_section))) by (vm_compute; reflexivity).
    symmetry. apply Permutation_rev. }
  split; [exact HN|]. split; [exact HP|].
  exact (update_field_order_lists_given_order parent_section items HN HP).
Defined.

(** * The seed layout and the reset button *)

Lemma Forall2_same {A : Type} (R : A -> A -> Prop) (l : list A) :
  (forall x, R x x) -> Forall2 R l l.
Proof. intros H. induction l; constructor; auto. Qed.

(** C10: the two files build the same seed: the sections agree in name,
    title, expansion and every attribute of every field. *)
Theorem seed_layouts_agree :
  Real.sections (Real.load_original_layout Real.init_session_state)
  = Simple.sections (Simple.load_original_layout Simple.init_session_state)
  /\ Forall2 (fun r s =>
       name r = name s /\ title r = title s /\ expanded r = expanded s
       /\ Forall2 (fun f g =>
            id f = id g /\ label f = label g /\ value f = value g
            /\ field_type f = field_type g /\ visible f = visible g
            /\ position f = position g) (fields r) (fields s))
       Real.original_sections Simple.original_sections.
Proof.
  split; [reflexivity|].
  replace Simple.original_sections with Real.original_sections by reflexivity.
  apply Forall2_same. intros r. repeat split.
  apply Forall2_same. intros f. repeat split.
Qed.

Lemma simple_reset_layout_spec (st : Simple.SessionState) :
  Simple.reset_layout st
  = Simple.mkState Simple.original_sections None (Simple.show_hidden_panel st).
Proof. reflexivity. Qed.

Lemma real_reset_layout_spec (st : Real.SessionState) :
  Real.reset_layout st = Real.mkState Real.original_sections (Real.show_hidden_panel st).
Proof. reflexivity. Qed.

(** C9: whatever was done before, in either variant, the reset button
    leaves the seed layout, and in the swap variant no selection: three
    sections; Account Information with 24 fields, [account_name] at
    position 0 with its value; Parent Hierarchy with 4 fields; Customer
    Success with 12 fields, of which exactly [empty1] .. [empty4] have an
    empty label, all four hidden. *)
Theorem reset_reproduces_seed
  (acts : list Simple.action) (st : Simple.SessionState)
  (racts : list Real.action) (rst : Real.SessionState) :
  let st' := Simple.reset_layout (Simple.run acts st) in
  let rst' := Real.reset_layout (Real.run racts rst) in
  Simple.sections st' = Simple.original_sections
  /\ Simple.selected_field st' = None
  /\ Real.sections rst' = Simple.original_sections
  /\ exists account parent success,
       Simple.sections st' = [account; parent; success]
       /\ title account = py "Account Information"
       /\ List.length (fields account) = 24%nat
       /\ filter (fun f => str_eqb (id f) (py "account_name")) (fields account)
          = [LF_ "account_name" "Account Name" "Steed Standard Transport Ltd." "text" true 0]
       /\ title parent = py "Parent Hierarchy"
       /\ List.length (fields parent) = 4%nat
       /\ title success = py "Customer Success"
       /\ List.length (fields success) = 12%nat
       /\ map (fun f => (id f, visible f))
            (filter (fun f => negb (truthy (label f))) (fields success))
          = [(py "empty1", false); (py "empty2", false);
             (py "empty3", false); (py "empty4", false)].
Proof.
  intros st' rst'. subst st' rst'.
  rewrite simple_reset_layout_spec, real_reset_layout_spec. simpl.
  repeat split.
  do 3 eexists. repeat split.
Qed.

(** * The selection of the swap variant *)

(** C8: with a selection pending in another section, a click on a drag
    handle records the clicked field as the selection; the sections of the
    session, so every position, stay as they are: no swap. *)
Theorem click_in_other_section_reselects
  (section : LayoutSection) (field : LayoutField) (st : Simple.SessionState)
  (sel_section sel_label sel_id : str) :
  Simple.selected_field st = Some (sel_section, sel_label, sel_id) ->
  sel_section <> name section ->
  Simple.click_drag_handle section field st
  = Returned (Simple.mkState (Simple.sections st)
                (Some (name section, label field, id field))
                (Simple.show_hidden_panel st)).
Proof.
  intros Hsel Hne. unfold Simple.click_drag_handle. rewrite Hsel.
  apply str_eqb_neq in Hne. rewrite Hne. reflexivity.
Qed.

(** [account_name] selected, then the handle of [parent_us] in the next
    section. *)
Lemma click_in_other_section_reselects_witness :
  let st := Simple.step (Simple.ClickHandle 0 0) seed_session in
  let section := mkSection (py "parent_hierarchy") (py "Parent Hierarchy")
                   Simple.parent_fields true in
  let field := LF_ "parent_us" "Parent Account TMW US" empty "text" true 0 in
  Simple.selected_field st = Some (py "account_info", py "Account Name", py "account_name")
  /\ py "account_info" <> name section
  /\ Simple.click_drag_handle section field st
     = Returned (Simple.mkState (Simple.sections st)
                   (Some (name section, label field, id field))
                   (Simple.show_hidden_panel st)).
Proof.
  intros st section field.
  assert (H1 : Simple.selected_field st
               = Some (py "account_info", py "Account Name", py "account_name"))
    by reflexivity.
  assert (H2 : py "account_info" <> name section) by (vm_compute; discriminate).
  split; [exact H1|]. split; [exact H2|].
  exact (click_in_other_section_reselects section field st _ _ _ H1 H2).
Defined.

(** C5, as the code has it: a click on the drag handle of the field that is
    already selected records that field as the selection once more.  The
    selection does not go back to none; no swap is done, the sections stay
    as they are. *)
Theorem click_selected_field_keeps_selection
  (section : LayoutSection) (field : LayoutField) (st : Simple.SessionState)
  (sel_label : str) :
  Simple.selected_field st = Some (name section, sel_label, id field) ->
  Simple.click_drag_handle section field st
  = Returned (Simple.mkState (Simple.sections st)
                (Some (name section, label field, id field))
                (Simple.show_hidden_panel st)).
Proof.
  intros Hsel. unfold Simple.click_drag_handle. rewrite Hsel.
  rewrite (str_eqb_refl (id field)), andb_false_r. reflexivity.
Qed.

(** [account_name] selected, then its handle again. *)
Lemma click_selected_field_keeps_selection_witness :
  let st := Simple.step (Simple.ClickHandle 0 0) seed_session in
  let section := mkSection (py "account_info") (py "Account Information")
                   Simple.account_fields true in
  let field := LF_ "account_name" "Account Name" "Steed Standard Transport Ltd." "text" true 0 in
  Simple.selected_field st = Some (name section, py "Account Name", id field)
  /\ Simple.click_drag_handle section field st
     = Returned (Simple.mkState (Simple.sections st)
                   (Some (name section, label field, id field))
                   (Simple.show_hidden_panel st)).
Proof.
  intros st section field.
  assert (H1 : Simple.selected_field st = Some (name section, py "Account Name", id field))
    by reflexivity.
  split; [exact H1|].
  exact (click_selected_field_keeps_selection section field st _ H1).
Defined.

(** C5 as stated fails: two clicks on the handle of [account_name] leave
    it selected. *)
Lemma second_click_does_not_deselect :
  let st1 := Simple.step (Simple.ClickHandle 0 0) seed_session in
  let st2 := Simple.step (Simple.ClickHandle 0 0) st1 in
  Simple.selected_field st1
  = Some (py "account_info", py "Account Name", py "account_name")
  /\ Simple.selected_field st2
     = Some (py "account_info", py "Account Name", py "account_name")
  /\ Simple.selected_field st2 <> None
  /\ Simple.sections st2 = Simple.sections seed_session.
Proof.
  repeat split. vm_compute. discriminate.
Qed.

(** * The swap *)

Lemma swap_in_section_not_found (S : LayoutSection) (a b : str) :
  ~ In a (map id (fields S)) \/ ~ In b (map id (fields S)) ->
  Simple.swap_in_section S a b = Raised StopIteration S.
Proof.
  intros H. unfold Simple.swap_in_section.
  destruct (next_field a (fields S)) as [k1|] eqn:E1; [|reflexivity].
  destruct (next_field b (fields S)) as [k2|] eqn:E2; [|reflexivity].
  exfalso. destruct H as [H|H]; apply H.
  - apply next_field_Some in E1 as [f [Hf <-]].
    apply in_map. eapply nth_error_In. exact Hf.
  - apply next_field_Some in E2 as [f [Hf <-]].
    apply in_map. eapply nth_error_In. exact Hf.
Qed.

(** C7, as the code has it: when the section exists and one of the two ids
    is not the id of a field of it, [swap_fields] raises ([StopIteration],
    from [next]) and the sections are as they were; when no section has the
    name, [swap_fields] returns without an error, and again the sections
    are as they were. *)
Theorem swap_fields_not_found
  (secs : list LayoutSection) (section_name a b : str) :
  (forall S, lookup_section section_name secs = Some S ->
     ~ In a (map id (fields S)) \/ ~ In b (map id (fields S)) ->
     Simple.swap_fields secs section_name a b = Raised StopIteration secs)
  /\ (lookup_section section_name secs = None ->
      Simple.swap_fields secs section_name a b = Returned secs).
Proof.
  unfold lookup_section. induction secs as [|s r [IH1 IH2]]; simpl.
  - split; [discriminate | reflexivity].
  - destruct (str_eqb (name s) section_name) eqn:E.
    + split; [|discriminate].
      intros S HS H. injection HS as <-.
      now rewrite swap_in_section_not_found.
    + split.
      * intros S HS H. now rewrite (IH1 S HS H).
      * intros HN. now rewrite (IH2 HN).
Qed.

(** Parent Hierarchy of the seed has no field [phone]. *)
Lemma swap_fields_not_found_witness :
  let secs := Simple.original_sections in
  let S := mkSection (py "parent_hierarchy") (py "Parent Hierarchy")
             Simple.parent_fields true in
  lookup_section (py "parent_hierarchy") secs = Some S
  /\ (~ In (py "parent_us") (map id (fields S)) \/ ~ In (py "phone") (map id (fields S)))
  /\ Simple.swap_fields secs (py "parent_hierarchy") (py "parent_us") (py "phone")
     = Raised StopIteration secs.
Proof.
  intros secs S.
  assert (H1 : lookup_section (py "parent_hierarchy") secs = Some S) by reflexivity.
  assert (H2 : ~ In (py "parent_us") (map id (fields S))
               \/ ~ In (py "phone") (map id (fields S))).
  { right. vm_compute. intuition discriminate. }
  split; [exact H1|]. split; [exact H2|].
  exact (proj1 (swap_fields_not_found secs (py "parent_hierarchy")
                  (py "parent_us") (py "phone")) S H1 H2).
Defined.

(** C7 as stated fails: no section of the seed is called [sidebar], and the
    swap returns as if it had been done. *)
Lemma swap_in_missing_section_returns :
  lookup_section (py "sidebar") Simple.original_sections = None
  /\ Simple.swap_fields Simple.original_sections (py "sidebar")
       (py "account_name") (py "phone")
     = Returned Simple.original_sections
  /\ forall e secs,
       Simple.swap_fields Simple.original_sections (py "sidebar")
         (py "account_name") (py "phone") <> Raised e secs.
Proof.
  split; [reflexivity|]. split; [reflexivity|].
  intros e secs. vm_compute. discriminate.
Qed.

Lemma next_field_same_ids (a : str) (fs fs' : list LayoutField) :
  map id fs = map id fs' -> next_field a fs = next_field a fs'.
Proof.
  revert fs'. induction fs as [|f r IH]; intros [|f' r'] H; simpl in *;
    try discriminate; [reflexivity|].
  injection H as Hf Hr. rewrite Hf, (IH r' Hr). reflexivity.
Qed.

Lemma unique_by_key {A B : Type} (key : A -> B) (l : list A) (x y : A) :
  NoDup (map key l) -> In x l -> In y l -> key x = key y -> x = y.
Proof.
  induction l as [|h r IH]; simpl; intros HN Hx Hy E; [contradiction|].
  inversion HN as [|? ? Hh HN']; subst.
  destruct Hx as [->|Hx], Hy as [->|Hy]; try reflexivity.
  - exfalso. apply Hh. rewrite E. now apply in_map.
  - exfalso. apply Hh. rewrite <- E. now apply in_map.
  - now apply IH.
Qed.

Lemma unique_by_id (fs : list LayoutField) (f g : LayoutField) :
  NoDup (map id fs) -> In f fs -> In g fs -> id f = id g -> f = g.
Proof. apply unique_by_key. Qed.

Lemma position_at_found (a : str) (fs : list LayoutField) (k : nat) (f : LayoutField) :
  NoDup (map id fs) -> next_field a fs = Some k -> In f fs -> id f = a ->
  position_at k fs = position f.
Proof.
  intros HN Hk Hf Hid. apply next_field_Some in Hk as [g [Hg Hgid]].
  unfold position_at. rewrite Hg.
  f_equal. apply (unique_by_id fs); try assumption.
  - eapply nth_error_In. exact Hg.
  - congruence.
Qed.

Lemma with_position_same (f : LayoutField) : with_position f (position f) = f.
Proof. now destruct f. Qed.

Lemma with_fields_same (S : LayoutSection) : with_fields S (fields S) = S.
Proof. now destruct S. Qed.

Lemma swap_pos_id (a b : str) (pa pb : Z) (f : LayoutField) :
  id (swap_pos a b pa pb f) = id f.
Proof.
  unfold swap_pos. destruct (str_eqb (id f) a), (str_eqb (id f) b); reflexivity.
Qed.

Lemma swap_in_section_as_map (S : LayoutSection) (a b : str) (fa fb : LayoutField) :
  NoDup (map id (fields S)) ->
  In fa (fields S) -> id fa = a -> In fb (fields S) -> id fb = b -> a <> b ->
  Simple.swap_in_section S a b
  = Returned (with_fields S (sorted_by_position
                (map (swap_pos a b (position fa) (position fb)) (fields S)))).
Proof.
  intros HN Hfa Ha Hfb Hb Hab. unfold Simple.swap_in_section.
  destruct (next_field_In a (fields S)) as [k1 Hk1]; [rewrite <- Ha; now apply in_map|].
  destruct (next_field_In b (fields S)) as [k2 Hk2]; [rewrite <- Hb; now apply in_map|].
  rewrite Hk1, Hk2.
  rewrite (position_at_found a _ k1 fa HN Hk1 Hfa Ha).
  rewrite (position_at_found b _ k2 fb HN Hk2 Hfb Hb).
  do 3 f_equal. unfold set_position.
  rewrite (update_first_as_map a _ (fields S) k1 HN Hk1).
  match goal with |- update_at k2 ?g ?l = _ =>
    assert (Hids : map id l = map id (fields S)) end.
  { rewrite map_map. apply map_ext. intros f.
    destruct (str_eqb (id f) a); reflexivity. }
  rewrite (update_first_as_map b _ _ k2).
  - rewrite map_map. apply map_ext. intros f. unfold swap_pos.
    destruct (str_eqb (id f) a) eqn:E; simpl.
    + apply str_eqb_eq in E.
      destruct (str_eqb (id f) b) eqn:E'; [|reflexivity].
      apply str_eqb_eq in E'. congruence.
    + reflexivity.
  - now rewrite Hids.
  - rewrite <- Hk2. now apply next_field_same_ids.
Qed.

(** Two swaps of the same two fields of a section. *)
Lemma swap_in_section_twice (S : LayoutSection) (a b : str) :
  NoDup (map id (fields S)) -> NoDup (map position (fields S)) ->
  In a (map id (fields S)) -> In b (map id (fields S)) -> a <> b ->
  exists S1,
    Simple.swap_in_section S a b = Returned S1
    /\ name S1 = name S
    /\ Simple.swap_in_section S1 a b
       = Returned (with_fields S (sorted_by_position (fields S))).
Proof.
  intros HN HNp Ha Hb Hab.
  apply in_map_iff in Ha as [fa [Hida Hfa]].
  apply in_map_iff in Hb as [fb [Hidb Hfb]].
  set (pa := position fa). set (pb := position fb).
  set (sw := swap_pos a b pa pb).
  set (S1 := with_fields S (sorted_by_position (map sw (fields S)))).
  exists S1. split; [now apply swap_in_section_as_map|]. split; [reflexivity|].
  assert (HP1 : Permutation (fields S1) (map sw (fields S))).
  { apply sorted_by_position_perm. }
  assert (Hids1 : Permutation (map id (fields S1)) (map id (fields S))).
  { rewrite HP1, map_map. erewrite map_ext; [reflexivity|]. apply swap_pos_id. }
  assert (HN1 : NoDup (map id (fields S1))).
  { eapply Permutation_NoDup; [symmetry; exact Hids1 | exact HN]. }
  assert (Hfa1 : In (with_position fa pb) (fields S1)).
  { eapply Permutation_in; [symmetry; exact HP1|].
    apply in_map_iff. exists fa. split; [|exact Hfa].
    unfold sw, swap_pos. now rewrite Hida, str_eqb_refl. }
  assert (Hfb1 : In (with_position fb pa) (fields S1)).
  { eapply Permutation_in; [symmetry; exact HP1|].
    apply in_map_iff. exists fb. split; [|exact Hfb].
    unfold sw, swap_pos. rewrite Hidb, str_eqb_refl.
    destruct (str_eqb b a) eqn:E; [|reflexivity].
    apply str_eqb_eq in E. congruence. }
  rewrite (swap_in_section_as_map S1 a b _ _ HN1 Hfa1 Hida Hfb1 Hidb Hab).
  simpl. unfold with_fields. simpl. do 2 f_equal.
  symmetry. apply sorted_by_position_perm_eq; [|exact HNp].
  symmetry. rewrite sorted_by_position_perm, map_map.
  rewrite <- (map_id (fields S)) at 2.
  erewrite map_ext_in; [reflexivity|].
  intros f Hf. unfold sw, swap_pos.
  destruct (str_eqb (id f) a) eqn:E; simpl.
  - rewrite E. apply str_eqb_eq in E.
    assert (f = fa) by (apply (unique_by_id (fields S)); congruence).
    subst f. destruct fa; reflexivity.
  - destruct (str_eqb (id f) b) eqn:E'; simpl.
    + rewrite E, E'. apply str_eqb_eq in E'.
      assert (f = fb) by (apply (unique_by_id (fields S)); congruence).
      subst f. destruct fb; reflexivity.
    + rewrite E, E'. reflexivity.
Qed.

Lemma swap_fields_at (pre post : list LayoutSection) (S : LayoutSection) (a b : str) :
  Forall (fun s => name s <> name S) pre ->
  Simple.swap_fields (pre ++ S :: post) (name S) a b
  = map_outcome (fun s => pre ++ s :: post) (Simple.swap_in_section S a b).
Proof.
  induction 1 as [|s r Hs Hr IH]; simpl.
  - rewrite str_eqb_refl. reflexivity.
  - apply str_eqb_neq in Hs. rewrite Hs, IH.
    destruct (Simple.swap_in_section S a b); reflexivity.
Qed.

(** C4: in a section with unique ids and unique positions, two swaps of the
    same two distinct fields both return, and leave the section with every
    field at its original position, the fields in the order of their
    positions; every other section is as it was.  When the fields were in
    the order of their positions before, as they are after any swap, the
    sections are exactly what they were. *)
Theorem swap_fields_twice_restores
  (pre post : list LayoutSection) (S : LayoutSection) (a b : str) :
  Forall (fun s => name s <> name S) pre ->
  NoDup (map id (fields S)) -> NoDup (map position (fields S)) ->
  In a (map id (fields S)) -> In b (map id (fields S)) -> a <> b ->
  exists secs1 secs2,
    Simple.swap_fields (pre ++ S :: post) (name S) a b = Returned secs1
    /\ Simple.swap_fields secs1 (name S) a b = Returned secs2
    /\ secs2 = pre ++ with_fields S (sorted_fields S) :: post
    /\ map sorted_fields secs2 = map sorted_fields (pre ++ S :: post)
    /\ (StronglySorted pos_le (fields S) -> secs2 = pre ++ S :: post).
Proof.
  intros Hpre HN HNp Ha Hb Hab.
  destruct (swap_in_section_twice S a b HN HNp Ha Hb Hab) as [S1 [H1 [Hname H2]]].
  exists (pre ++ S1 :: post), (pre ++ with_fields S (sorted_fields S) :: post).
  split; [rewrite swap_fields_at, H1 by assumption; reflexivity|].
  split.
  { rewrite <- Hname. rewrite swap_fields_at, H2 by (now rewrite Hname). reflexivity. }
  split; [reflexivity|]. split.
  - rewrite !map_app. simpl. unfold sorted_fields at 2. simpl.
    unfold sorted_fields at 2. now rewrite sorted_by_position_idem.
  - intros Hs. unfold sorted_fields.
    now rewrite (sorted_by_position_id _ Hs), with_fields_same.
Qed.

(** Parent Hierarchy in the seed: [parent_us] and [parent_netsuite] swapped
    twice. *)
Lemma swap_fields_twice_restores_witness :
  let account := mkSection (py "account_info") (py "Account Information")
                   Simple.account_fields true in
  let S := mkSection (py "parent_hierarchy") (py "Parent Hierarchy")
             Simple.parent_fields true in
  let success := mkSection (py "customer_success") (py "Customer Success")
                   Simple.success_fields true in
  let a := py "parent_us" in
  let b := py "parent_netsuite" in
  Simple.original_sections = [account] ++ S :: [success]
  /\ Forall (fun s => name s <> name S) [account]
  /\ NoDup (map id (fields S)) /\ NoDup (map position (fields S))
  /\ In a (map id (fields S)) /\ In b (map id (fields S)) /\ a <> b
  /\ StronglySorted pos_le (fields S)
  /\ exists secs1,
       Simple.swap_fields Simple.original_sections (name S) a b = Returned secs1
       /\ Simple.swap_fields secs1 (name S) a b = Returned Simple.original_sections.
Proof.
  intros account S success a b.
  assert (H1 : Forall (fun s => name s <> name S) [account]).
  { constructor; [vm_compute; discriminate | constructor]. }
  assert (H2 : NoDup (map id (fields S))).
  { vm_compute. repeat constructor; simpl; intuition discriminate. }
  assert (H3 : NoDup (map position (fields S))).
  { vm_compute. repeat constructor; simpl; intuition discriminate. }
  assert (H4 : In a (map id (fields S))) by (vm_compute; tauto).
  assert (H5 : In b (map id (fields S))) by (vm_compute; tauto).
  assert (H6 : a <> b) by (vm_compute; discriminate).
  assert (H7 : StronglySorted pos_le (fields S)).
  { repeat constructor; unfold pos_le; simpl; lia. }
  split; [reflexivity|].
  repeat (split; [assumption|]).
  destruct (swap_fields_twice_restores [account] [success] S a b H1 H2 H3 H4 H5 H6)
    as [secs1 [secs2 [E1 [E2 [_ [_ E3]]]]]].
  exists secs1. split; [exact E1|].
  rewrite E2. f_equal. exact (E3 H7).
Defined.

(** * What holds in every session *)

Lemma Forall_update_at {A : Type} (P : A -> Prop) (g : A -> A) (k : nat) (l : list A) :
  (forall x, P x -> P (g x)) -> Forall P l -> Forall P (update_at k g l).
Proof.
  intros Hg H. revert k. induction H as [|x r Hx Hr IH]; intros [|k]; simpl;
    constructor; auto.
Qed.

Lemma distinct_NoDup (l : list str) : distinct l = true -> NoDup l.
Proof.
  induction l as [|a r IH]; simpl; intros H; [constructor|].
  apply andb_true_iff in H as [Ha Hr]. constructor; [|now apply IH].
  intros Hin. apply negb_true_iff in Ha.
  assert (existsb (str_eqb a) r = true); [|congruence].
  apply existsb_exists. exists a. split; [exact Hin | apply str_eqb_refl].
Qed.

Lemma quote_free_check (s : str) : existsb (N.eqb DQUOTE) s = false -> quote_free s.
Proof.
  intros H Hin.
  assert (existsb (N.eqb DQUOTE) s = true); [|congruence].
  apply existsb_exists. exists DQUOTE. split; [exact Hin | apply N.eqb_refl].
Qed.

(** ** The drag variant: ids stay unique and free of double quotes *)

Lemma ids_ok_perm (s s' : LayoutSection) :
  Permutation (map id (fields s')) (map id (fields s)) -> ids_ok s -> ids_ok s'.
Proof.
  intros HP [HN HQ]. split.
  - eapply Permutation_NoDup; [symmetry; exact HP | exact HN].
  - eapply Permutation_Forall; [symmetry; exact HP | exact HQ].
Qed.

Lemma update_field_order_ids (S : LayoutSection) (items : list str) :
  Permutation (map id (fields (state_of (Real.update_field_order S items))))
    (map id (fields S)).
Proof.
  unfold Real.update_field_order.
  pose proof (assign_positions_ids (Real.extract_field_ids items) 0 (fields S)) as H.
  destruct (Real.assign_positions 0 (Real.extract_field_ids items) (fields S))
    as [fs|e fs]; simpl in *.
  - rewrite <- H. apply Permutation_map, sorted_by_position_perm.
  - now rewrite H.
Qed.

Lemma ids_okb_ok (s : LayoutSection) : ids_okb s = true -> ids_ok s.
Proof.
  unfold ids_okb. intros H. apply andb_true_iff in H as [H1 H2]. split.
  - now apply distinct_NoDup.
  - apply Forall_forall. intros a Ha. apply quote_free_check.
    rewrite forallb_forall in H2. specialize (H2 a Ha).
    now apply negb_true_iff in H2.
Qed.

Lemma real_original_sections_ids_ok : Forall ids_ok Real.original_sections.
Proof.
  unfold Real.original_sections.
  repeat (apply Forall_cons; [apply ids_okb_ok; vm_compute; reflexivity|]).
  apply Forall_nil.
Qed.

Lemma real_step_ids_ok (a : Real.action) (st : Real.SessionState) :
  Forall ids_ok (Real.sections st) -> Forall ids_ok (Real.sections (Real.step a st)).
Proof.
  intros H. unfold Real.step. destruct (Real.enabled a st); [|exact H].
  destruct a as [si items|si fi|si fi|si| |]; simpl.
  - unfold Real.drop_items.
    destruct (nth_error (Real.sections st) si) as [S|] eqn:E; [|exact H].
    destruct (list_eq_dec (list_eq_dec N.eq_dec) items (Real.sortable_items S));
      [exact H|].
    assert (HS : ids_ok S).
    { rewrite Forall_forall in H. apply H. eapply nth_error_In. exact E. }
    pose proof (ids_ok_perm S _ (update_field_order_ids S items) HS) as HS'.
    destruct (Real.update_field_order S items) as [S'|e S']; simpl in *;
      apply Forall_update_at; auto.
  - apply Forall_update_at; [|exact H].
    intros s Hs. eapply ids_ok_perm; [|exact Hs].
    simpl. now rewrite update_at_map.
  - apply Forall_update_at; [|exact H].
    intros s Hs. eapply ids_ok_perm; [|exact Hs].
    simpl. now rewrite update_at_map.
  - apply Forall_update_at; [|exact H]. intros s Hs. exact Hs.
  - exact H.
  - apply real_original_sections_ids_ok.
Qed.

Lemma real_run_ids_ok (acts : list Real.action) (st : Real.SessionState) :
  Forall ids_ok (Real.sections st) -> Forall ids_ok (Real.sections (Real.run acts st)).
Proof.
  revert st. induction acts as [|a r IH]; simpl; intros st H; [exact H|].
  apply IH. now apply real_step_ids_ok.
Qed.

(** In every session of the drag variant: whatever order the sortable
    component gives the items of a section back in, the reorder returns and
    the section is then listed in that order, item for item. *)
Corollary drop_in_any_session
  (acts : list Real.action) (si : nat) (S : LayoutSection) (sorted_items : list str) :
  let st := Real.run acts (Real.load_original_layout Real.init_session_state) in
  nth_error (Real.sections st) si = Some S ->
  Permutation sorted_items (Real.sortable_items S) ->
  exists S',
    Real.update_field_order S sorted_items = Returned S'
    /\ map id (visible_fields S') = Real.extract_field_ids sorted_items.
Proof.
  intros st HS HP.
  assert (Hok : ids_ok S).
  { pose proof (real_run_ids_ok acts
                  (Real.load_original_layout Real.init_session_state)
                  real_original_sections_ids_ok) as H.
    rewrite Forall_forall in H. apply H. eapply nth_error_In. exact HS. }
  destruct Hok as [HN HQ].
  assert (Hids : Permutation (Real.extract_field_ids sorted_items)
                   (map id (visible_fields S))).
  { apply dropped_items_ids; [|exact HP].
    apply Forall_forall. intros f Hf. rewrite Forall_forall in HQ.
    apply HQ. now apply in_map. }
  destruct (reorder_by_permutation S sorted_items HN Hids)
    as [HNids [HW [S' [Hret Hlist]]]].
  exists S'. split; [exact Hret|]. rewrite Hlist.
  apply sorted_by_index_ids; [exact HNids | | now apply renumbered_by_index].
  rewrite map_map. now rewrite (map_ext _ id (renumber_id 0 _)).
Qed.

(** ** The swap variant: ids stay unique, fields stay in strict order *)

Lemma strictly_sorted_NoDup (l : list Z) : StronglySorted Z.lt l -> NoDup l.
Proof.
  induction 1 as [|z r Hr IH Hz]; constructor; [|exact IH].
  intros Hin. rewrite Forall_forall in Hz. specialize (Hz z Hin). lia.
Qed.

Lemma strictly_sorted_pos_le (l : list LayoutField) :
  StronglySorted Z.lt (map position l) -> StronglySorted pos_le l.
Proof.
  induction l as [|f r IH]; simpl; intros H; [constructor|].
  inversion H as [|? ? Hr Hf]; subst. constructor; [now apply IH|].
  apply Forall_forall. intros g Hg. rewrite Forall_forall in Hf.
  unfold pos_le. specialize (Hf (position g) (in_map position r g Hg)). lia.
Qed.

Lemma transpose_inj (pa pb x y : Z) :
  transpose pa pb x = transpose pa pb y -> x = y.
Proof.
  unfold transpose.
  destruct (Z.eqb_spec x pa), (Z.eqb_spec x pb), (Z.eqb_spec y pa), (Z.eqb_spec y pb);
    lia.
Qed.

Lemma swap_pos_positions (fs : list LayoutField) (a b : str) (fa fb : LayoutField) :
  NoDup (map id fs) -> NoDup (map position fs) ->
  In fa fs -> id fa = a -> In fb fs -> id fb = b ->
  map position (map (swap_pos a b (position fa) (position fb)) fs)
  = map (transpose (position fa) (position fb)) (map position fs).
Proof.
  intros HN HNp Hfa Ha Hfb Hb. rewrite !map_map.
  apply map_ext_in. intros f Hf. unfold swap_pos, transpose.
  destruct (str_eqb (id f) a) eqn:E.
  - apply str_eqb_eq in E.
    assert (f = fa) by (apply (unique_by_id fs); congruence). subst f.
    simpl. now rewrite Z.eqb_refl.
  - apply str_eqb_neq in E.
    assert (Hpa : position f <> position fa).
    { intros Hp. apply E. rewrite <- Ha. f_equal.
      now apply (unique_by_key position fs). }
    destruct (Z.eqb_spec (position f) (position fa)) as [|_]; [contradiction|].
    destruct (str_eqb (id f) b) eqn:E'.
    + apply str_eqb_eq in E'.
      assert (f = fb) by (apply (unique_by_id fs); congruence). subst f.
      simpl. now rewrite Z.eqb_refl.
    + apply str_eqb_neq in E'.
      destruct (Z.eqb_spec (position f) (position fb)) as [Hp|_]; [|reflexivity].
      exfalso. apply E'. rewrite <- Hb. f_equal.
      now apply (unique_by_key position fs).
Qed.

Lemma swap_in_section_in_order (S : LayoutSection) (a b : str) :
  a <> b -> in_order S -> in_order (state_of (Simple.swap_in_section S a b)).
Proof.
  intros Hab [HN HS].
  destruct (in_dec (list_eq_dec N.eq_dec) a (map id (fields S))) as [Ha|Ha];
    [|rewrite swap_in_section_not_found by (now left); now split].
  destruct (in_dec (list_eq_dec N.eq_dec) b (map id (fields S))) as [Hb|Hb];
    [|rewrite swap_in_section_not_found by (now right); now split].
  apply in_map_iff in Ha as [fa [Hida Hfa]].
  apply in_map_iff in Hb as [fb [Hidb Hfb]].
  pose proof (strictly_sorted_NoDup _ HS) as HNp.
  rewrite (swap_in_section_as_map S a b fa fb HN Hfa Hida Hfb Hidb Hab).
  unfold in_order, with_fields. simpl. split.
  - eapply Permutation_NoDup; [|exact HN]. symmetry.
    rewrite sorted_by_position_perm, map_map.
    erewrite map_ext; [reflexivity|]. intros f. now rewrite swap_pos_id.
  - apply StronglySorted_map.
    apply (sorted_nodup_strict position); [apply sorted_by_position_sorted|].
    eapply Permutation_NoDup.
    + apply Permutation_map. symmetry. apply sorted_by_position_perm.
    + rewrite (swap_pos_positions _ a b fa fb HN HNp Hfa Hida Hfb Hidb).
      apply Finite.Injective_map_NoDup; [|exact HNp].
      intros x y. apply transpose_inj.
Qed.

Lemma swap_fields_in_order (secs : list LayoutSection) (n a b : str) :
  a <> b -> Forall in_order secs ->
  Forall in_order (state_of (Simple.swap_fields secs n a b)).
Proof.
  intros Hab. induction 1 as [|s r Hs Hr IH]; simpl; [constructor|].
  destruct (str_eqb (name s) n).
  - pose proof (swap_in_section_in_order s a b Hab Hs) as H.
    destruct (Simple.swap_in_section s a b); simpl in *; now constructor.
  - destruct (Simple.swap_fields r n a b); simpl in *; now constructor.
Qed.

Lemma in_orderb_ok (s : LayoutSection) : in_orderb s = true -> in_order s.
Proof.
  unfold in_orderb. intros H. apply andb_true_iff in H as [H1 H2].
  split; [now apply distinct_NoDup|].
  apply Sorted_StronglySorted; [intros x y z; lia|].
  induction (map position (fields s)) as [|x r IH]; [constructor|].
  destruct r as [|y r'].
  - repeat constructor.
  - apply andb_true_iff in H2 as [Hxy Hr].
    constructor; [now apply IH|]. constructor. now apply Z.ltb_lt.
Qed.

Lemma simple_original_sections_in_order : Forall in_order Simple.original_sections.
Proof.
  unfold Simple.original_sections.
  repeat (apply Forall_cons; [apply in_orderb_ok; vm_compute; reflexivity|]).
  apply Forall_nil.
Qed.

Lemma with_visible_in_order (fi : nat) (v : bool) (s : LayoutSection) :
  in_order s ->
  in_order (with_fields s (update_at fi (fun f => with_visible f v) (fields s))).
Proof.
  intros [HN HS]. unfold in_order. simpl.
  now rewrite !update_at_map by reflexivity.
Qed.

Lemma simple_step_in_order (a : Simple.action) (st : Simple.SessionState) :
  Forall in_order (Simple.sections st) ->
  Forall in_order (Simple.sections (Simple.step a st)).
Proof.
  intros H. unfold Simple.step. destruct (Simple.enabled a st); [|exact H].
  destruct a as [si fi|si fi|si fi|si| |]; simpl.
  - destruct (Simple.object_at si fi st) as [[section field]|]; [|exact H].
    unfold Simple.click_drag_handle.
    destruct (Simple.selected_field st) as [[[sel_section sel_label] sel_id]|];
      [|exact H].
    destruct (str_eqb sel_section (name section)); simpl; [|exact H].
    destruct (str_eqb sel_id (id field)) eqn:E; simpl; [exact H|].
    apply str_eqb_neq in E.
    pose proof (swap_fields_in_order _ (name section) sel_id (id field) E H) as H'.
    destruct (Simple.swap_fields (Simple.sections st) (name section) sel_id (id field));
      exact H'.
  - unfold Simple.hide_field.
    destruct (Simple.object_at si fi st) as [[section field]|]; [|exact H].
    assert (H' : Forall in_order
                   (Simple.sections
                      (Simple.on_field si fi (fun f => with_visible f false) st))).
    { simpl. apply Forall_update_at; [|exact H].
      intros s. apply with_visible_in_order. }
    destruct (Simple.selected_field _) as [[[s0 l0] i0]|]; [|exact H'].
    destruct (str_eqb i0 (id field)); exact H'.
  - apply Forall_update_at; [|exact H]. intros s. apply with_visible_in_order.
  - apply Forall_update_at; [|exact H]. intros s Hs. exact Hs.
  - exact H.
  - apply simple_original_sections_in_order.
Qed.

Lemma simple_run_in_order (acts : list Simple.action) (st : Simple.SessionState) :
  Forall in_order (Simple.sections st) ->
  Forall in_order (Simple.sections (Simple.run acts st)).
Proof.
  revert st. induction acts as [|a r IH]; simpl; intros st H; [exact H|].
  apply IH. now apply simple_step_in_order.
Qed.

(** X20: in every session of the swap variant two swaps of the same two
    fields give back the sections exactly. *)
Corollary swap_twice_in_any_session
  (acts : list Simple.action) (pre post : list LayoutSection) (S : LayoutSection)
  (a b : str) :
  let st := Simple.run acts seed_session in
  Simple.sections st = pre ++ S :: post ->
  Forall (fun s => name s <> name S) pre ->
  In a (map id (fields S)) -> In b (map id (fields S)) -> a <> b ->
  exists secs1,
    Simple.swap_fields (Simple.sections st) (name S) a b = Returned secs1
    /\ Simple.swap_fields secs1 (name S) a b = Returned (Simple.sections st).
Proof.
  intros st Hst Hpre Ha Hb Hab.
  assert (HS : in_order S).
  { pose proof (simple_run_in_order acts seed_session
                  simple_original_sections_in_order) as H.
    fold st in H. rewrite Hst in H. rewrite Forall_forall in H.
    apply H. apply in_or_app. right. now left. }
  destruct HS as [HN HS].
  destruct (swap_in_section_twice S a b HN (strictly_sorted_NoDup _ HS) Ha Hb Hab)
    as [S1 [H1 [Hname H2]]].
  exists (pre ++ S1 :: post). rewrite Hst. split.
  - rewrite swap_fields_at, H1 by assumption. reflexivity.
  - rewrite <- Hname. rewrite swap_fields_at, H2 by (now rewrite Hname).
    simpl. rewrite sorted_by_position_id by (now apply strictly_sorted_pos_le).
    now rewrite with_fields_same.
Qed.

(** X21: in the swap variant positions never collide: in every session
    every listing is strictly ascending. *)
Corollary listing_strict_in_swap_sessions (acts : list Simple.action) (S : LayoutSection) :
  In S (Simple.sections (Simple.run acts seed_session)) ->
  StronglySorted pos_lt (visible_fields S).
Proof.
  intros HS.
  pose proof (simple_run_in_order acts seed_session
                simple_original_sections_in_order) as H.
  rewrite Forall_forall in H. destruct (H S HS) as [_ Hp].
  apply visible_fields_strict. now apply strictly_sorted_NoDup.
Qed.

(** * More about the swap *)

Lemma update_at_same {A : Type} (g : A -> A) (k : nat) (l : list A) :
  (forall x, nth_error l k = Some x -> g x = x) -> update_at k g l = l.
Proof.
  revert k. induction l as [|x r IH]; intros [|k] H; simpl; try reflexivity.
  - now rewrite (H x eq_refl).
  - f_equal. apply IH. exact H.
Qed.

Lemma update_at_twice {A : Type} (g h : A -> A) (k : nat) (l : list A) :
  update_at k g (update_at k h l) = update_at k (fun x => g (h x)) l.
Proof.
  revert k. induction l as [|x r IH]; intros [|k]; simpl; try reflexivity.
  now rewrite IH.
Qed.

Lemma update_at_nth_same {A : Type} (g : A -> A) (k : nat) (l : list A) (x : A) :
  nth_error l k = Some x -> nth_error (update_at k g l) k = Some (g x).
Proof.
  revert k. induction l as [|y r IH]; intros [|k] H; simpl in *; try discriminate.
  - now injection H as ->.
  - now apply IH.
Qed.

Lemma swap_in_section_self (S : LayoutSection) (a : str) :
  In a (map id (fields S)) ->
  Simple.swap_in_section S a a
  = Returned (with_fields S (sorted_by_position (fields S))).
Proof.
  intros Ha. unfold Simple.swap_in_section.
  destruct (next_field_In a (fields S) Ha) as [k Hk]. rewrite Hk.
  destruct (next_field_Some a _ k Hk) as [f [Hf _]].
  unfold set_position, position_at. rewrite Hf, update_at_twice.
  rewrite update_at_same; [reflexivity|].
  intros x Hx. rewrite Hf in Hx. injection Hx as <-. now destruct f.
Qed.

(** X1: a swap of a field with itself returns and writes no position; it
    only leaves [section.fields] sorted, so a section that was in the order
    of its positions is exactly as before. *)
Theorem swap_fields_same_id
  (pre post : list LayoutSection) (S : LayoutSection) (a : str) :
  Forall (fun s => name s <> name S) pre ->
  In a (map id (fields S)) ->
  Simple.swap_fields (pre ++ S :: post) (name S) a a
  = Returned (pre ++ with_fields S (sorted_fields S) :: post)
  /\ (StronglySorted pos_le (fields S) ->
      Simple.swap_fields (pre ++ S :: post) (name S) a a
      = Returned (pre ++ S :: post)).
Proof.
  intros Hpre Ha.
  rewrite swap_fields_at by assumption.
  rewrite (swap_in_section_self S a Ha). simpl.
  split; [reflexivity|].
  intros Hs. now rewrite (sorted_by_position_id _ Hs), with_fields_same.
Qed.

Lemma swap_fields_same_id_witness :
  let account := mkSection (py "account_info") (py "Account Information")
                   Simple.account_fields true in
  let S := mkSection (py "parent_hierarchy") (py "Parent Hierarchy")
             Simple.parent_fields true in
  let success := mkSection (py "customer_success") (py "Customer Success")
                   Simple.success_fields true in
  Forall (fun s => name s <> name S) [account]
  /\ In (py "parent_cad") (map id (fields S))
  /\ Simple.swap_fields ([account] ++ S :: [success]) (name S)
       (py "parent_cad") (py "parent_cad")
     = Returned ([account] ++ with_fields S (sorted_fields S) :: [success]).
Proof.
  intros account S success.
  assert (H1 : Forall (fun s => name s <> name S) [account]).
  { constructor; [vm_compute; discriminate | constructor]. }
  assert (H2 : In (py "parent_cad") (map id (fields S))) by (vm_compute; tauto).
  split; [exact H1|]. split; [exact H2|].
  exact (proj1 (swap_fields_same_id [account] [success] S (py "parent_cad") H1 H2)).
Defined.

Lemma swap_in_section_kept (S : LayoutSection) (a b : str) :
  let S' := state_of (Simple.swap_in_section S a b) in
  name S' = name S /\ title S' = title S /\ expanded S' = expanded S
  /\ Permutation (map unpositioned (fields S')) (map unpositioned (fields S)).
Proof.
  unfold Simple.swap_in_section.
  destruct (next_field a (fields S)) as [k1|]; [|now repeat split].
  destruct (next_field b (fields S)) as [k2|]; [|now repeat split].
  simpl. repeat split.
  rewrite sorted_by_position_perm. unfold set_position.
  now rewrite !update_at_map by reflexivity.
Qed.

(** X2: whatever the arguments, and whether it returns or raises,
    [swap_fields] leaves every section with another name as it is, and the
    section of that name with its name, title and expansion and with the
    same fields, each keeping its id, label, value, type and visibility. *)
Theorem swap_fields_changes_positions_only
  (secs : list LayoutSection) (section_name a b : str) :
  Forall2 (fun s s' =>
             name s' = name s /\ title s' = title s /\ expanded s' = expanded s
             /\ Permutation (map unpositioned (fields s')) (map unpositioned (fields s))
             /\ (name s <> section_name -> s' = s))
          secs (state_of (Simple.swap_fields secs section_name a b)).
Proof.
  induction secs as [|s r IH]; simpl; [constructor|].
  destruct (str_eqb (name s) section_name) eqn:E.
  - apply str_eqb_eq in E.
    destruct (swap_in_section_kept s a b) as [H1 [H2 [H3 H4]]].
    destruct (Simple.swap_in_section s a b) as [s'|e s']; simpl in *.
    + constructor; [repeat split; try assumption; congruence|].
      apply Forall2_same. intros x. now repeat split.
    + constructor; [repeat split; try assumption; congruence|].
      apply Forall2_same. intros x. now repeat split.
  - destruct (Simple.swap_fields r section_name a b) as [r'|e r']; simpl in *;
      (constructor; [now repeat split | exact IH]).
Qed.

(** X3: with a field of the section selected, a click on the handle of
    another field of the same section returns, leaves no selection, and the
    two fields have exchanged their positions; every other field of the
    section is as it was, the other sections too, and [section.fields] is
    sorted. *)
Theorem click_second_handle_swaps
  (pre post : list LayoutSection) (S : LayoutSection) (fa fb : LayoutField)
  (st : Simple.SessionState) (sel_label : str) :
  Simple.sections st = pre ++ S :: post ->
  Forall (fun s => name s <> name S) pre ->
  NoDup (map id (fields S)) ->
  In fa (fields S) -> In fb (fields S) -> id fa <> id fb ->
  Simple.selected_field st = Some (name S, sel_label, id fa) ->
  exists S',
    Simple.click_drag_handle S fb st
    = Returned (Simple.mkState (pre ++ S' :: post) None (Simple.show_hidden_panel st))
    /\ name S' = name S /\ title S' = title S /\ expanded S' = expanded S
    /\ In (with_position fa (position fb)) (fields S')
    /\ In (with_position fb (position fa)) (fields S')
    /\ (forall f, In f (fields S) -> id f <> id fa -> id f <> id fb -> In f (fields S'))
    /\ List.length (fields S') = List.length (fields S)
    /\ StronglySorted pos_le (fields S').
Proof.
  intros Hst Hpre HN Hfa Hfb Hab Hsel.
  set (sw := swap_pos (id fa) (id fb) (position fa) (position fb)).
  exists (with_fields S (sorted_by_position (map sw (fields S)))).
  assert (Hin : forall f, In f (fields S) ->
            In (sw f) (sorted_by_position (map sw (fields S)))).
  { intros f Hf. eapply Permutation_in.
    - symmetry. apply sorted_by_position_perm.
    - now apply in_map. }
  split.
  { unfold Simple.click_drag_handle. rewrite Hsel, str_eqb_refl.
    assert (E : str_eqb (id fa) (id fb) = false) by now apply str_eqb_neq.
    rewrite E. simpl. rewrite Hst, swap_fields_at by assumption.
    now rewrite (swap_in_section_as_map S (id fa) (id fb) fa fb HN Hfa eq_refl Hfb eq_refl Hab). }
  simpl. repeat split.
  - specialize (Hin fa Hfa). unfold sw, swap_pos in Hin.
    now rewrite str_eqb_refl in Hin.
  - specialize (Hin fb Hfb). unfold sw, swap_pos in Hin.
    rewrite str_eqb_refl in Hin.
    assert (E : str_eqb (id fb) (id fa) = false) by (apply str_eqb_neq; congruence).
    now rewrite E in Hin.
  - intros f Hf Ha Hb. specialize (Hin f Hf). unfold sw, swap_pos in Hin.
    apply str_eqb_neq in Ha, Hb. now rewrite Ha, Hb in Hin.
  - rewrite (Permutation_length (sorted_by_position_perm _)). apply length_map.
  - apply sorted_by_position_sorted.
Qed.

(** [parent_us] selected in the seed, then the handle of [parent_netsuite]. *)
Lemma click_second_handle_swaps_witness :
  let account := mkSection (py "account_info") (py "Account Information")
                   Simple.account_fields true in
  let S := mkSection (py "parent_hierarchy") (py "Parent Hierarchy")
             Simple.parent_fields true in
  let success := mkSection (py "customer_success") (py "Customer Success")
                   Simple.success_fields true in
  let fa := LF_ "parent_us" "Parent Account TMW US" empty "text" true 0 in
  let fb := LF_ "parent_netsuite" "Parent NetSuite Id" empty "text" true 3 in
  let st := Simple.step (Simple.ClickHandle 1 0) seed_session in
  Simple.selected_field st = Some (name S, label fa, id fa)
  /\ exists S',
       Simple.click_drag_handle S fb st
       = Returned (Simple.mkState ([account] ++ S' :: [success]) None
                     (Simple.show_hidden_panel st))
       /\ In (with_position fa 3) (fields S') /\ In (with_position fb 0) (fields S').
Proof.
  intros account S success fa fb st.
  assert (H0 : Simple.sections st = [account] ++ S :: [success]) by reflexivity.
  assert (H1 : Forall (fun s => name s <> name S) [account]).
  { constructor; [vm_compute; discriminate | constructor]. }
  assert (H2 : NoDup (map id (fields S))).
  { apply distinct_NoDup. vm_compute. reflexivity. }
  assert (H3 : In fa (fields S)) by (left; reflexivity).
  assert (H4 : In fb (fields S)) by (do 3 right; left; reflexivity).
  assert (H5 : id fa <> id fb) by (vm_compute; discriminate).
  assert (H6 : Simple.selected_field st = Some (name S, label fa, id fa)) by reflexivity.
  split; [exact H6|].
  destruct (click_second_handle_swaps [account] [success] S fa fb st (label fa)
              H0 H1 H2 H3 H4 H5 H6) as [S' [E [_ [_ [_ [Ha [Hb _]]]]]]].
  exists S'. repeat split; assumption.
Defined.

(** * Hiding and showing *)

Lemma with_visible_back (f : LayoutField) :
  visible f = true -> with_visible (with_visible f false) true = f.
Proof. destruct f; simpl; intros ->; reflexivity. Qed.

Lemma hide_show_sections (si fi : nat) (secs : list LayoutSection) :
  (forall S f, nth_error secs si = Some S -> nth_error (fields S) fi = Some f ->
               visible f = true) ->
  update_at si
    (fun s => with_fields s (update_at fi (fun f => with_visible f true) (fields s)))
    (update_at si
       (fun s => with_fields s (update_at fi (fun f => with_visible f false) (fields s)))
       secs)
  = secs.
Proof.
  intros H. rewrite update_at_twice. apply update_at_same.
  intros S HS. unfold with_fields at 1. simpl.
  rewrite update_at_twice, update_at_same.
  - now destruct S.
  - intros f Hf. apply with_visible_back. now apply (H S f).
Qed.

(** X4: hiding a visible field and showing it again gives the session back
    as it was: in the drag variant the whole session, in the swap variant
    the sections and the panel flag, while a selection is either kept or,
    when it carried the id of that field, dropped. *)
Theorem hide_then_unhide_restores (si fi : nat)
  (rst : Real.SessionState) (st : Simple.SessionState) :
  Real.field_is visible si fi rst = true ->
  (exists S f, Simple.object_at si fi st = Some (S, f) /\ visible f = true) ->
  Real.unhide_field si fi (Real.hide_field si fi rst) = rst
  /\ Simple.sections (Simple.unhide_field si fi (Simple.hide_field si fi st))
     = Simple.sections st
  /\ Simple.show_hidden_panel (Simple.unhide_field si fi (Simple.hide_field si fi st))
     = Simple.show_hidden_panel st
  /\ (Simple.selected_field (Simple.unhide_field si fi (Simple.hide_field si fi st))
      = Simple.selected_field st
      \/ Simple.selected_field (Simple.unhide_field si fi (Simple.hide_field si fi st))
         = None).
Proof.
  intros HR [S [f [HS Hv]]]. split.
  - unfold Real.unhide_field, Real.hide_field, Real.on_field, Real.on_section. simpl.
    rewrite hide_show_sections; [now destruct rst|].
    intros S' f' HS' Hf'. unfold Real.field_is in HR.
    now rewrite HS', Hf' in HR.
  - assert (Hsecs : forall S' f', nth_error (Simple.sections st) si = Some S' ->
              nth_error (fields S') fi = Some f' -> visible f' = true).
    { intros S' f' HS' Hf'. unfold Simple.object_at in HS.
      rewrite HS', Hf' in HS. now injection HS as _ <-. }
    unfold Simple.unhide_field, Simple.hide_field. rewrite HS.
    unfold Simple.on_field, Simple.on_section. simpl.
    destruct (Simple.selected_field st) as [[[s0 l0] i0]|]; simpl.
    + destruct (str_eqb i0 (id f)); simpl;
        rewrite hide_show_sections by exact Hsecs; repeat split; auto.
    + rewrite hide_show_sections by exact Hsecs. repeat split; auto.
Qed.

(** [parent_cad] of the seed. *)
Lemma hide_then_unhide_restores_witness :
  let rst := Real.load_original_layout Real.init_session_state in
  Real.field_is visible 1 1 rst = true
  /\ (exists S f, Simple.object_at 1 1 seed_session = Some (S, f) /\ visible f = true)
  /\ Real.unhide_field 1 1 (Real.hide_field 1 1 rst) = rst.
Proof.
  intros rst.
  assert (H1 : Real.field_is visible 1 1 rst = true) by reflexivity.
  assert (H2 : exists S f, Simple.object_at 1 1 seed_session = Some (S, f)
                           /\ visible f = true).
  { do 2 eexists. split; reflexivity. }
  split; [exact H1|]. split; [exact H2|].
  exact (proj1 (hide_then_unhide_restores 1 1 rst seed_session H1 H2)).
Defined.

Lemma next_field_of_nth (fs : list LayoutField) (k : nat) (f : LayoutField) :
  NoDup (map id fs) -> nth_error fs k = Some f -> next_field (id f) fs = Some k.
Proof.
  revert k. induction fs as [|x r IH]; intros [|k] HN H; simpl in *; try discriminate.
  - injection H as ->. now rewrite str_eqb_refl.
  - inversion HN as [|? ? Hx HN']; subst.
    destruct (str_eqb (id x) (id f)) eqn:E.
    + apply str_eqb_eq in E. exfalso. apply Hx. rewrite E.
      apply in_map. eapply nth_error_In. exact H.
    + now rewrite (IH k HN' H).
Qed.

Lemma insert_by_position_map (g : LayoutField -> LayoutField) (x : LayoutField)
  (l : list LayoutField) :
  (forall y, position (g y) = position y) ->
  insert_by_position (g x) (map g l) = map g (insert_by_position x l).
Proof.
  intros Hg. induction l as [|y r IH]; simpl; [reflexivity|].
  rewrite !Hg. destruct (position x <=? position y); simpl; [reflexivity|].
  now rewrite IH.
Qed.

(** Writing anything but the position may be done before or after the
    sort. *)
Lemma sorted_by_position_map (g : LayoutField -> LayoutField) (l : list LayoutField) :
  (forall y, position (g y) = position y) ->
  sorted_by_position (map g l) = map g (sorted_by_position l).
Proof.
  intros Hg. induction l as [|x r IH]; simpl; [reflexivity|].
  now rewrite IH, insert_by_position_map.
Qed.

Lemma visible_fields_after_hide (S : LayoutSection) (fi : nat) (f : LayoutField) :
  NoDup (map id (fields S)) -> nth_error (fields S) fi = Some f ->
  visible_fields
    (with_fields S (update_at fi (fun x => with_visible x false) (fields S)))
  = filter (fun g => negb (str_eqb (id g) (id f))) (visible_fields S).
Proof.
  intros HN Hf. unfold visible_fields, sorted_fields. simpl.
  rewrite (update_first_as_map (id f) _ (fields S) fi HN (next_field_of_nth _ _ _ HN Hf)).
  rewrite sorted_by_position_map
    by (intros y; destruct (str_eqb (id y) (id f)); reflexivity).
  induction (sorted_by_position (fields S)) as [|x r IH]; [reflexivity|].
  cbn [map filter]. destruct (str_eqb (id x) (id f)) eqn:E.
  - assert (Hx : shown (with_visible x false) = false) by reflexivity.
    rewrite Hx, IH. destruct (shown x); cbn [filter]; [now rewrite E | reflexivity].
  - rewrite IH. destruct (shown x); cbn [filter]; [now rewrite E | reflexivity].
Qed.

(** X5: the hide button of a field takes that field, and no other, out of
    the listing of its section (ids being unique in it); the fields that
    stay keep their order, and the other sections are not touched.  The
    same in both variants. *)
Theorem hide_removes_one_from_listing (si fi : nat) (S : LayoutSection) (f : LayoutField)
  (rst : Real.SessionState) (st : Simple.SessionState) :
  NoDup (map id (fields S)) -> nth_error (fields S) fi = Some f ->
  (nth_error (Real.sections rst) si = Some S ->
   exists S',
     nth_error (Real.sections (Real.hide_field si fi rst)) si = Some S'
     /\ visible_fields S'
        = filter (fun g => negb (str_eqb (id g) (id f))) (visible_fields S)
     /\ forall sj, sj <> si ->
          nth_error (Real.sections (Real.hide_field si fi rst)) sj
          = nth_error (Real.sections rst) sj)
  /\ (nth_error (Simple.sections st) si = Some S ->
      exists S',
        nth_error (Simple.sections (Simple.hide_field si fi st)) si = Some S'
        /\ visible_fields S'
           = filter (fun g => negb (str_eqb (id g) (id f))) (visible_fields S)
        /\ forall sj, sj <> si ->
             nth_error (Simple.sections (Simple.hide_field si fi st)) sj
             = nth_error (Simple.sections st) sj).
Proof.
  intros HN Hf. split; intros HS.
  - eexists. split; [|split].
    + unfold Real.hide_field, Real.on_field, Real.on_section. simpl.
      apply update_at_nth_same. exact HS.
    + now apply visible_fields_after_hide.
    + intros sj Hsj. unfold Real.hide_field, Real.on_field, Real.on_section. simpl.
      now apply update_at_nth_other.
  - assert (Hsecs : Simple.sections (Simple.hide_field si fi st)
                    = update_at si
                        (fun s => with_fields s
                           (update_at fi (fun x => with_visible x false) (fields s)))
                        (Simple.sections st)).
    { unfold Simple.hide_field, Simple.object_at. rewrite HS, Hf.
      unfold Simple.on_field, Simple.on_section. simpl.
      destruct (Simple.selected_field st) as [[[s0 l0] i0]|]; [|reflexivity].
      destruct (str_eqb i0 (id f)); reflexivity. }
    rewrite Hsecs. eexists. split; [|split].
    + apply update_at_nth_same. exact HS.
    + now apply visible_fields_after_hide.
    + intros sj Hsj. now apply update_at_nth_other.
Qed.

(** [risk_status], field 2 of Customer Success in the seed. *)
Lemma hide_removes_one_from_listing_witness :
  let S := mkSection (py "customer_success") (py "Customer Success")
             Real.success_fields true in
  let f := LF_ "risk_status" "Enterprise Risk Status" empty "text" true 2 in
  let rst := Real.load_original_layout Real.init_session_state in
  NoDup (map id (fields S)) /\ nth_error (fields S) 2 = Some f
  /\ nth_error (Real.sections rst) 2 = Some S
  /\ exists S',
       nth_error (Real.sections (Real.hide_field 2 2 rst)) 2 = Some S'
       /\ visible_fields S'
          = filter (fun g => negb (str_eqb (id g) (id f))) (visible_fields S).
Proof.
  intros S f rst.
  assert (H1 : NoDup (map id (fields S))).
  { apply distinct_NoDup. vm_compute. reflexivity. }
  assert (H2 : nth_error (fields S) 2 = Some f) by reflexivity.
  assert (H3 : nth_error (Real.sections rst) 2 = Some S) by reflexivity.
  split; [exact H1|]. split; [exact H2|]. split; [exact H3|].
  destruct (proj1 (hide_removes_one_from_listing 2 2 S f rst seed_session H1 H2) H3)
    as [S' [E1 [E2 _]]].
  exists S'. split; assumption.
Defined.

(** * More about the field id in an item *)

(** X6: when no id of a section holds a double quote, the ids recovered
    from the items shown for the section are the ids of its listing, in the
    same order; every item carries the marker. *)
Theorem listed_ids_survive_rendering (S : LayoutSection) :
  Forall (fun f => ~ In DQUOTE (id f)) (fields S) ->
  Real.extract_field_ids (Real.sortable_items S) = map id (visible_fields S)
  /\ Forall (fun item => str_in Real.ID_MARKER item = true) (Real.sortable_items S)
  /\ map Real.parse_field_id (Real.sortable_items S) = map id (visible_fields S).
Proof.
  intros Hq.
  assert (Hv : Forall (fun f => ~ In DQUOTE (id f)) (visible_fields S)).
  { apply Forall_forall. intros f Hf.
    unfold visible_fields, sorted_fields in Hf. apply filter_In in Hf as [Hf _].
    rewrite Forall_forall in Hq. apply Hq.
    eapply Permutation_in; [apply sorted_by_position_perm | exact Hf]. }
  unfold Real.sortable_items. split; [|split].
  - now apply extract_field_ids_rendered.
  - apply Forall_forall. intros item Hitem.
    apply in_map_iff in Hitem as [f [<- Hf]].
    rewrite Forall_forall in Hv.
    apply (parse_field_id_create_field_item f (name S) (Hv f Hf)).
  - rewrite map_map. apply map_ext_in. intros f Hf.
    rewrite Forall_forall in Hv.
    apply (parse_field_id_create_field_item f (name S) (Hv f Hf)).
Qed.

Lemma listed_ids_survive_rendering_witness :
  Forall (fun f => ~ In DQUOTE (id f)) (fields parent_section)
  /\ Real.extract_field_ids (Real.sortable_items parent_section)
     = map id (visible_fields parent_section).
Proof.
  assert (H : Forall (fun f => ~ In DQUOTE (id f)) (fields parent_section)).
  { repeat (apply Forall_cons; [apply quote_free_check; vm_compute; reflexivity|]).
    apply Forall_nil. }
  split; [exact H|].
  exact (proj1 (listed_ids_survive_rendering parent_section H)).
Defined.

(** X7: an id that holds a double quote does not survive: what is read
    back from the item is the id cut off in front of its first double
    quote. *)
Theorem quoted_id_is_cut (field : LayoutField) (section_name x y : str) :
  id field = x ++ DQUOTE :: y -> ~ In DQUOTE x ->
  Real.parse_field_id (Real.create_field_item field section_name) = x
  /\ Real.parse_field_id (Real.create_field_item field section_name) <> id field.
Proof.
  intros Hid Hx.
  destruct (create_field_item_shape field section_name) as [rest E].
  assert (Hp : Real.parse_field_id (Real.create_field_item field section_name) = x).
  { rewrite E, Hid, <- app_assoc. simpl.
    apply (parse_field_id_item x (y ++ DQUOTE :: rest) Hx). }
  split; [exact Hp|].
  rewrite Hp, Hid. intros Habs.
  apply (f_equal (@List.length N)) in Habs.
  rewrite length_app in Habs. simpl in Habs. lia.
Qed.

Lemma quoted_id_is_cut_witness :
  let field := mkField (py "a" ++ DQUOTE :: py "b") (py "A") (py "v") (py "text") true 0 in
  id field = py "a" ++ DQUOTE :: py "b" /\ ~ In DQUOTE (py "a")
  /\ Real.parse_field_id (Real.create_field_item field []) = py "a".
Proof.
  intros field.
  assert (H1 : id field = py "a" ++ DQUOTE :: py "b") by reflexivity.
  assert (H2 : ~ In DQUOTE (py "a")) by (apply quote_free_check; reflexivity).
  split; [exact H1|]. split; [exact H2|].
  exact (proj1 (quoted_id_is_cut field [] (py "a") (py "b") H1 H2)).
Defined.

Lemma find_at_no_quote (x : str) (i : Z) :
  ~ In DQUOTE x -> find_at [DQUOTE] x i = -1.
Proof.
  revert i. induction x as [|c r IH]; intros i H; [reflexivity|].
  cbn [find_at starts_with].
  destruct (N.eqb_spec DQUOTE c) as [E|E].
  - exfalso. apply H. left. now symmetry.
  - cbn [andb]. apply IH. intros Hin. apply H. now right.
Qed.

(** X8: an item that breaks off inside the id, with no double quote after
    the marker, is not passed over: [find] answers [-1], the slice then
    ends one character before the end, and the id read is the text after
    the marker less its last character. *)
Theorem cut_off_item_loses_last_character (x : str) :
  ~ In DQUOTE x ->
  str_in Real.ID_MARKER (ITEM_HEAD ++ x) = true
  /\ Real.parse_field_id (ITEM_HEAD ++ x) = removelast x
  /\ Real.extract_field_ids [ITEM_HEAD ++ x] = [removelast x].
Proof.
  intros Hx.
  set (item := ITEM_HEAD ++ x).
  assert (Hfind : py_find Real.ID_MARKER item 0 = 14).
  { rewrite py_find_from_0. reflexivity. }
  assert (Hlen : len item = 29 + len x).
  { unfold item, len. rewrite length_app. simpl List.length. lia. }
  pose proof (len_nonneg x) as Hx0.
  assert (Hin : str_in Real.ID_MARKER item = true).
  { unfold str_in. rewrite Hfind. reflexivity. }
  assert (Hparse : Real.parse_field_id item = removelast x).
  { unfold Real.parse_field_id. rewrite Hfind. change (14 + 15) with 29.
    assert (Hb : slice_bound item 29 = 29).
    { unfold slice_bound. change (29 <? 0) with false. cbv iota. lia. }
    assert (Hend : py_find [DQUOTE] item 29 = -1).
    { unfold py_find. rewrite Hb.
      destruct (Z.ltb_spec (len item) 29) as [Hl|Hl]; [lia|].
      change (skipn (Z.to_nat 29) item) with x.
      now apply find_at_no_quote. }
    rewrite Hend. unfold py_slice. rewrite Hb.
    assert (Hb' : slice_bound item (-1) = 28 + len x).
    { unfold slice_bound. change (-1 <? 0) with true. cbv iota. lia. }
    rewrite Hb'. change (skipn (Z.to_nat 29) item) with x.
    replace (Z.to_nat (28 + len x - 29)) with (pred (List.length x))
      by (unfold len; lia).
    symmetry. apply removelast_firstn_len. }
  split; [exact Hin|]. split; [exact Hparse|].
  cbn [Real.extract_field_ids]. fold item. now rewrite Hin, Hparse.
Qed.

Lemma cut_off_item_loses_last_character_witness :
  ~ In DQUOTE (py "phone")
  /\ Real.parse_field_id (ITEM_HEAD ++ py "phone") = py "phon".
Proof.
  assert (H : ~ In DQUOTE (py "phone")) by (apply quote_free_check; reflexivity).
  split; [exact H|].
  exact (proj1 (proj2 (cut_off_item_loses_last_character (py "phone") H))).
Defined.

(** * The reorder, given twice *)

Lemma assign_positions_final (ids : list str) :
  forall i fs,
    NoDup (map id fs) -> incl ids (map id fs) ->
    Real.assign_positions i ids fs = Returned (map (reposition i ids) fs).
Proof.
  induction ids as [|a rest IH]; simpl; intros i fs HN Hincl.
  - f_equal. symmetry. rewrite <- (map_id fs) at 2.
    apply map_ext. intros f. unfold reposition. simpl. now destruct f.
  - destruct (next_field_In a fs (Hincl a (or_introl eq_refl))) as [k Hk].
    rewrite Hk. unfold set_position.
    rewrite (update_first_as_map a _ fs k HN Hk).
    assert (Hids : map id (map (fun f => if str_eqb (id f) a
                                         then with_position f (Z.of_nat i) else f) fs)
                   = map id fs).
    { rewrite map_map. apply map_ext. intros f.
      destruct (str_eqb (id f) a); reflexivity. }
    rewrite IH.
    + f_equal. rewrite map_map. apply map_ext. intros f.
      unfold reposition. simpl.
      destruct (str_eqb (id f) a); reflexivity.
    + now rewrite Hids.
    + rewrite Hids. intros x Hx. apply Hincl. now right.
Qed.

Lemma final_position_listed (ids : list str) (a : str) :
  In a ids -> forall i p q, final_position i ids a p = final_position i ids a q.
Proof.
  induction ids as [|b rest IH]; simpl; intros Ha i p q; [contradiction|].
  destruct (str_eqb a b) eqn:E; [reflexivity|].
  destruct Ha as [Ha|Ha]; [|now apply IH].
  apply str_eqb_neq in E. congruence.
Qed.

Lemma final_position_unlisted (ids : list str) (a : str) :
  ~ In a ids -> forall i p, final_position i ids a p = p.
Proof.
  induction ids as [|b rest IH]; simpl; intros Ha i p; [reflexivity|].
  destruct (str_eqb a b) eqn:E.
  - apply str_eqb_eq in E. exfalso. apply Ha. left. now symmetry.
  - apply IH. intros Hin. apply Ha. now right.
Qed.

Lemma reposition_twice (i : nat) (ids : list str) (f : LayoutField) :
  reposition i ids (reposition i ids f) = reposition i ids f.
Proof.
  unfold reposition, with_position. simpl. f_equal.
  destruct (in_dec (list_eq_dec N.eq_dec) (id f) ids) as [Hin|Hin].
  - now apply final_position_listed.
  - now rewrite !(final_position_unlisted ids (id f) Hin).
Qed.

(** X9: in a section with unique ids, when every recovered id is the id of
    a field, giving [update_field_order] the same items a second time
    returns the section the first call left: the call may be repeated
    without harm.  A field named more than once ends at the index of its
    last mention. *)
Theorem update_field_order_repeatable (S : LayoutSection) (sorted_items : list str) :
  NoDup (map id (fields S)) ->
  incl (Real.extract_field_ids sorted_items) (map id (fields S)) ->
  exists S1,
    Real.update_field_order S sorted_items = Returned S1
    /\ Real.update_field_order S1 sorted_items = Returned S1
    /\ fields S1
       = sorted_by_position
           (map (reposition 0 (Real.extract_field_ids sorted_items)) (fields S)).
Proof.
  intros HN Hincl.
  set (ids := Real.extract_field_ids sorted_items) in *.
  set (l1 := sorted_by_position (map (reposition 0 ids) (fields S))).
  assert (Hids1 : Permutation (map id l1) (map id (fields S))).
  { unfold l1. rewrite sorted_by_position_perm, map_map. reflexivity. }
  exists (with_fields S l1). split; [|split; [|reflexivity]].
  - unfold Real.update_field_order. fold ids.
    now rewrite (assign_positions_final ids 0 (fields S) HN Hincl).
  - unfold Real.update_field_order. fold ids. simpl.
    rewrite (assign_positions_final ids 0 l1).
    + unfold with_fields. simpl. do 2 f_equal.
      replace (map (reposition 0 ids) l1) with l1; [apply sorted_by_position_idem|].
      rewrite <- (map_id l1) at 1. apply map_ext_in. intros f Hf.
      assert (Hf' : In f (map (reposition 0 ids) (fields S))).
      { eapply Permutation_in; [apply sorted_by_position_perm | exact Hf]. }
      apply in_map_iff in Hf' as [g [<- _]]. symmetry. apply reposition_twice.
    + eapply Permutation_NoDup; [symmetry; exact Hids1 | exact HN].
    + intros a Ha. eapply Permutation_in; [symmetry; exact Hids1|]. now apply Hincl.
Qed.

(** Parent Hierarchy of the seed, its items in reverse, with the last one
    given once more. *)
Lemma update_field_order_repeatable_witness :
  let items := rev (Real.sortable_items parent_section)
               ++ [hd [] (Real.sortable_items parent_section)] in
  NoDup (map id (fields parent_section))
  /\ incl (Real.extract_field_ids items) (map id (fields parent_section))
  /\ exists S1,
       Real.update_field_order parent_section items = Returned S1
       /\ Real.update_field_order S1 items = Returned S1
       /\ map (fun f => (id f, position f)) (fields S1)
          = [(py "parent_netsuite", 0); (py "parent_account", 1);
             (py "parent_cad", 2); (py "parent_us", 4)].
Proof.
  intros items.
  assert (H1 : NoDup (map id (fields parent_section))).
  { apply distinct_NoDup. vm_compute. reflexivity. }
  assert (H2 : incl (Real.extract_field_ids items) (map id (fields parent_section))).
  { intros a Ha. vm_compute in Ha. vm_compute. tauto. }
  split; [exact H1|]. split; [exact H2|].
  destruct (update_field_order_repeatable parent_section items H1 H2)
    as [S1 [E1 [E2 E3]]].
  exists S1. split; [exact E1|]. split; [exact E2|].
  rewrite E3. vm_compute. reflexivity.
Defined.

(** * Nothing but order and visibility ever changes *)

Lemma kept_refl (s : LayoutSection) : kept s s.
Proof. now repeat split. Qed.

Lemma kept_trans (s1 s2 s3 : LayoutSection) : kept s1 s2 -> kept s2 s3 -> kept s1 s3.
Proof.
  intros [N1 [T1 P1]] [N2 [T2 P2]]. repeat split; try congruence.
  etransitivity; eassumption.
Qed.

Lemma Forall2_trans {A : Type} (R : A -> A -> Prop) (l1 l2 l3 : list A) :
  (forall x y z, R x y -> R y z -> R x z) ->
  Forall2 R l1 l2 -> Forall2 R l2 l3 -> Forall2 R l1 l3.
Proof.
  intros HR H12. revert l3. induction H12 as [|x y r1 r2 Hxy Hr IH]; intros l3 H23;
    inversion H23; subst; constructor; eauto.
Qed.

Lemma Forall2_update_at {A : Type} (R : A -> A -> Prop) (g : A -> A) (k : nat)
  (l : list A) :
  (forall x, R x x) -> (forall x, nth_error l k = Some x -> R x (g x)) ->
  Forall2 R l (update_at k g l).
Proof.
  intros Hrefl. revert k. induction l as [|x r IH]; intros k Hg.
  - destruct k; constructor.
  - destruct k as [|k]; simpl.
    + constructor; [now apply Hg | now apply Forall2_same].
    + constructor; [apply Hrefl | apply IH; exact Hg].
Qed.

Lemma immutable_of_unpositioned (l l' : list LayoutField) :
  Permutation (map unpositioned l') (map unpositioned l) ->
  Permutation (map immutable l') (map immutable l).
Proof.
  intros H.
  apply (Permutation_map (fun u : str * str * str * str * bool => fst u)) in H.
  rewrite !map_map in H. exact H.
Qed.

Lemma update_field_order_kept (S : LayoutSection) (items : list str) :
  kept S (state_of (Real.update_field_order S items)).
Proof.
  unfold Real.update_field_order.
  pose proof (assign_positions_unpositioned (Real.extract_field_ids items) 0 (fields S))
    as H.
  destruct (Real.assign_positions 0 (Real.extract_field_ids items) (fields S))
    as [fs|e fs]; simpl in *; repeat split; simpl; apply immutable_of_unpositioned.
  - rewrite <- H. apply Permutation_map, sorted_by_position_perm.
  - now rewrite H.
Qed.

Lemma with_visible_kept (fi : nat) (v : bool) (s : LayoutSection) :
  kept s (with_fields s (update_at fi (fun f => with_visible f v) (fields s))).
Proof.
  repeat split. simpl. now rewrite update_at_map by reflexivity.
Qed.

Lemma with_expanded_kept (e : bool) (s : LayoutSection) : kept s (with_expanded s e).
Proof. now repeat split. Qed.

Lemma real_step_kept (a : Real.action) (st : Real.SessionState) :
  Forall2 kept (Real.sections st) (Real.sections (Real.step a st))
  \/ Real.sections (Real.step a st) = Real.original_sections.
Proof.
  unfold Real.step. destruct (Real.enabled a st);
    [|left; apply Forall2_same, kept_refl].
  destruct a as [si items|si fi|si fi|si| |]; simpl.
  - left. unfold Real.drop_items.
    destruct (nth_error (Real.sections st) si) as [S|] eqn:E;
      [|apply Forall2_same, kept_refl].
    destruct (list_eq_dec (list_eq_dec N.eq_dec) items (Real.sortable_items S));
      [apply Forall2_same, kept_refl|].
    pose proof (update_field_order_kept S items) as HS.
    destruct (Real.update_field_order S items) as [S'|e S']; simpl in *;
      (apply Forall2_update_at; [apply kept_refl|]);
      intros x Hx; rewrite E in Hx; injection Hx as <-; exact HS.
  - left. apply Forall2_update_at; [apply kept_refl|].
    intros s _. apply with_visible_kept.
  - left. apply Forall2_update_at; [apply kept_refl|].
    intros s _. apply with_visible_kept.
  - left. apply Forall2_update_at; [apply kept_refl|].
    intros s _. apply with_expanded_kept.
  - left. apply Forall2_same, kept_refl.
  - right. reflexivity.
Qed.

Lemma swap_fields_kept (secs : list LayoutSection) (n a b : str) :
  Forall2 kept secs (state_of (Simple.swap_fields secs n a b)).
Proof.
  induction secs as [|s r IH]; simpl; [constructor|].
  destruct (str_eqb (name s) n).
  - destruct (swap_in_section_kept s a b) as [H1 [H2 [_ H4]]].
    destruct (Simple.swap_in_section s a b) as [s'|e s']; simpl in *;
      (constructor; [|apply Forall2_same, kept_refl]);
      repeat split; try assumption; now apply immutable_of_unpositioned.
  - destruct (Simple.swap_fields r n a b) as [r'|e r']; simpl in *;
      (constructor; [apply kept_refl | exact IH]).
Qed.

Lemma simple_step_kept (a : Simple.action) (st : Simple.SessionState) :
  Forall2 kept (Simple.sections st) (Simple.sections (Simple.step a st))
  \/ Simple.sections (Simple.step a st) = Simple.original_sections.
Proof.
  unfold Simple.step. destruct (Simple.enabled a st);
    [|left; apply Forall2_same, kept_refl].
  destruct a as [si fi|si fi|si fi|si| |]; simpl.
  - left. destruct (Simple.object_at si fi st) as [[section field]|];
      [|apply Forall2_same, kept_refl].
    unfold Simple.click_drag_handle.
    destruct (Simple.selected_field st) as [[[s0 l0] i0]|];
      [|apply Forall2_same, kept_refl].
    destruct (str_eqb s0 (name section) && negb (str_eqb i0 (id field)));
      [|apply Forall2_same, kept_refl].
    pose proof (swap_fields_kept (Simple.sections st) (name section) i0 (id field)) as H.
    destruct (Simple.swap_fields (Simple.sections st) (name section) i0 (id field));
      exact H.
  - left. unfold Simple.hide_field.
    destruct (Simple.object_at si fi st) as [[section field]|];
      [|apply Forall2_same, kept_refl].
    assert (H : Forall2 kept (Simple.sections st)
                  (Simple.sections
                     (Simple.on_field si fi (fun f => with_visible f false) st))).
    { simpl. apply Forall2_update_at; [apply kept_refl|].
      intros s _. apply with_visible_kept. }
    destruct (Simple.selected_field _) as [[[s0 l0] i0]|]; [|exact H].
    destruct (str_eqb i0 (id field)); exact H.
  - left. apply Forall2_update_at; [apply kept_refl|].
    intros s _. apply with_visible_kept.
  - left. apply Forall2_update_at; [apply kept_refl|].
    intros s _. apply with_expanded_kept.
  - left. apply Forall2_same, kept_refl.
  - right. reflexivity.
Qed.

Lemma real_run_kept (acts : list Real.action) (st : Real.SessionState) :
  Forall2 kept Real.original_sections (Real.sections st) ->
  Forall2 kept Real.original_sections (Real.sections (Real.run acts st)).
Proof.
  revert st. induction acts as [|a r IH]; simpl; intros st H; [exact H|].
  apply IH. destruct (real_step_kept a st) as [Hk|Hk].
  - eapply Forall2_trans; [apply kept_trans | exact H | exact Hk].
  - rewrite Hk. apply Forall2_same, kept_refl.
Qed.

Lemma simple_run_kept (acts : list Simple.action) (st : Simple.SessionState) :
  Forall2 kept Simple.original_sections (Simple.sections st) ->
  Forall2 kept Simple.original_sections (Simple.sections (Simple.run acts st)).
Proof.
  revert st. induction acts as [|a r IH]; simpl; intros st H; [exact H|].
  apply IH. destruct (simple_step_kept a st) as [Hk|Hk].
  - eapply Forall2_trans; [apply kept_trans | exact H | exact Hk].
  - rewrite Hk. apply Forall2_same, kept_refl.
Qed.

(** X10: in every session of either variant the sections are the three of
    the seed, in the seed's order, each with its name and title, and each
    holds the fields of the seed, every one with its id, label, value and
    type: no event adds, removes, renames or rewrites a field. *)
Theorem sessions_keep_the_fields
  (acts : list Simple.action) (racts : list Real.action) :
  Forall2 kept Simple.original_sections
    (Simple.sections (Simple.run acts seed_session))
  /\ Forall2 kept Real.original_sections
       (Real.sections (Real.run racts real_seed_session))
  /\ map name (Simple.sections (Simple.run acts seed_session))
     = [py "account_info"; py "parent_hierarchy"; py "customer_success"]
  /\ map name (Real.sections (Real.run racts real_seed_session))
     = [py "account_info"; py "parent_hierarchy"; py "customer_success"]
  /\ map (fun s => List.length (fields s))
       (Simple.sections (Simple.run acts seed_session)) = [24; 4; 12]%nat
  /\ map (fun s => List.length (fields s))
       (Real.sections (Real.run racts real_seed_session)) = [24; 4; 12]%nat.
Proof.
  assert (HS : Forall2 kept Simple.original_sections
                 (Simple.sections (Simple.run acts seed_session))).
  { apply simple_run_kept. apply Forall2_same, kept_refl. }
  assert (HR : Forall2 kept Real.original_sections
                 (Real.sections (Real.run racts real_seed_session))).
  { apply real_run_kept. apply Forall2_same, kept_refl. }
  assert (Hgen : forall l0 l, Forall2 kept l0 l ->
            map name l = map name l0
            /\ map (fun s => List.length (fields s)) l
               = map (fun s => List.length (fields s)) l0).
  { induction 1 as [|s0 s r0 r [Hn [_ Hp]] Hr [IH1 IH2]]; simpl; [now split|].
    split; [now rewrite Hn, IH1|].
    rewrite IH2. f_equal.
    apply Permutation_length in Hp. now rewrite !length_map in Hp. }
  destruct (Hgen _ _ HS) as [HS1 HS2]. destruct (Hgen _ _ HR) as [HR1 HR2].
  repeat split; assumption.
Qed.

(** X11: the script builds its editor anew on every run, and in every
    session of either variant that constructor changes nothing: the layout
    is loaded once, and a run of the script for an event is the handling of
    the event. *)
Theorem constructor_keeps_the_session
  (acts : list Simple.action) (a : Simple.action)
  (racts : list Real.action) (ra : Real.action) :
  let st := Simple.run acts seed_session in
  let rst := Real.run racts real_seed_session in
  Simple.construct st = st
  /\ Simple.script_run a st = Simple.step a st
  /\ Real.construct rst = rst
  /\ Real.script_run ra rst = Real.step ra rst.
Proof.
  intros st rst.
  assert (HS : Simple.construct st = st).
  { pose proof (simple_run_kept acts seed_session (Forall2_same _ _ kept_refl)) as H.
    fold st in H. unfold Simple.construct, Simple.load_original_layout.
    destruct (Simple.sections st); [inversion H | reflexivity]. }
  assert (HR : Real.construct rst = rst).
  { pose proof (real_run_kept racts real_seed_session (Forall2_same _ _ kept_refl)) as H.
    fold rst in H. unfold Real.construct, Real.load_original_layout.
    destruct (Real.sections rst); [inversion H | reflexivity]. }
  unfold Simple.script_run, Real.script_run. rewrite HS, HR. now repeat split.
Qed.

(** * The swap variant keeps position and index together *)

Lemma transpose_invol (pa pb z : Z) : transpose pa pb (transpose pa pb z) = z.
Proof.
  unfold transpose.
  destruct (Z.eqb_spec z pa), (Z.eqb_spec z pb); subst;
    repeat match goal with
           | |- context [Z.eqb ?x ?y] => destruct (Z.eqb_spec x y)
           end; congruence.
Qed.

Lemma transpose_perm (pa pb : Z) (l : list Z) :
  NoDup l -> In pa l -> In pb l -> Permutation (map (transpose pa pb) l) l.
Proof.
  intros HN Ha Hb.
  assert (Hclosed : forall z, In z l -> In (transpose pa pb z) l).
  { intros z Hz. unfold transpose.
    destruct (z =? pa); [exact Hb|]. destruct (z =? pb); [exact Ha | exact Hz]. }
  apply NoDup_Permutation; [|exact HN|].
  - apply Finite.Injective_map_NoDup; [|exact HN].
    intros x y. apply transpose_inj.
  - intros z. split.
    + intros Hz. apply in_map_iff in Hz as [y [<- Hy]]. now apply Hclosed.
    + intros Hz. rewrite <- (transpose_invol pa pb z).
      apply in_map. now apply Hclosed.
Qed.

Lemma indexed_positions_NoDup (s : LayoutSection) :
  indexed s -> NoDup (map position (fields s)).
Proof.
  intros [_ H]. rewrite H.
  apply Finite.Injective_map_NoDup; [intros x y; apply Nat2Z.inj | apply seq_NoDup].
Qed.

Lemma swap_in_section_indexed (S : LayoutSection) (a b : str) :
  a <> b -> indexed S -> indexed (state_of (Simple.swap_in_section S a b)).
Proof.
  intros Hab HS. pose proof HS as [HN Hpos].
  pose proof (indexed_positions_NoDup S HS) as HNp.
  destruct (in_dec (list_eq_dec N.eq_dec) a (map id (fields S))) as [Ha|Ha];
    [|rewrite swap_in_section_not_found by (now left); exact HS].
  destruct (in_dec (list_eq_dec N.eq_dec) b (map id (fields S))) as [Hb|Hb];
    [|rewrite swap_in_section_not_found by (now right); exact HS].
  apply in_map_iff in Ha as [fa [Hida Hfa]].
  apply in_map_iff in Hb as [fb [Hidb Hfb]].
  rewrite (swap_in_section_as_map S a b fa fb HN Hfa Hida Hfb Hidb Hab).
  set (l := map (swap_pos a b (position fa) (position fb)) (fields S)).
  assert (Hl : Permutation (map position l) (map position (fields S))).
  { unfold l. rewrite (swap_pos_positions _ a b fa fb HN HNp Hfa Hida Hfb Hidb).
    apply transpose_perm; [exact HNp | now apply in_map | now apply in_map]. }
  assert (Hs : Permutation (map position (sorted_by_position l))
                 (map position (fields S))).
  { rewrite sorted_by_position_perm. exact Hl. }
  unfold indexed, with_fields. simpl. split.
  - eapply Permutation_NoDup; [|exact HN]. symmetry.
    rewrite sorted_by_position_perm. unfold l. rewrite map_map.
    erewrite map_ext; [reflexivity|]. intros f. now rewrite swap_pos_id.
  - replace (List.length (sorted_by_position l)) with (List.length (fields S)).
    + apply (strictly_sorted_perm_eq (fun z : Z => z)).
      * apply StronglySorted_map.
        apply (sorted_nodup_strict position); [apply sorted_by_position_sorted|].
        eapply Permutation_NoDup; [symmetry; exact Hs | exact HNp].
      * apply StronglySorted_seq.
      * rewrite Hs. now rewrite Hpos.
    + rewrite (Permutation_length (sorted_by_position_perm l)).
      unfold l. now rewrite length_map.
Qed.

Lemma with_visible_indexed (fi : nat) (v : bool) (s : LayoutSection) :
  indexed s ->
  indexed (with_fields s (update_at fi (fun f => with_visible f v) (fields s))).
Proof.
  intros [HN HS]. unfold indexed. simpl.
  rewrite !update_at_map by reflexivity.
  replace (List.length (update_at fi (fun f => with_visible f v) (fields s)))
    with (List.length (fields s)); [now split|].
  rewrite <- (length_map id (update_at _ _ _)), update_at_map by reflexivity.
  now rewrite length_map.
Qed.

(** What every handler of the swap variant keeps, it keeps in every
    session. *)
Lemma simple_run_preserves (P : LayoutSection -> Prop) :
  (forall s a b, a <> b -> P s -> P (state_of (Simple.swap_in_section s a b))) ->
  (forall s fi v, P s ->
     P (with_fields s (update_at fi (fun f => with_visible f v) (fields s)))) ->
  (forall s e, P s -> P (with_expanded s e)) ->
  Forall P Simple.original_sections ->
  forall acts st, Forall P (Simple.sections st) ->
    Forall P (Simple.sections (Simple.run acts st)).
Proof.
  intros Hswap Hvis Hexp Hseed.
  assert (Hsecs : forall secs n a b, a <> b -> Forall P secs ->
            Forall P (state_of (Simple.swap_fields secs n a b))).
  { intros secs n a b Hab. induction 1 as [|s r Hs Hr IH]; simpl; [constructor|].
    destruct (str_eqb (name s) n).
    - pose proof (Hswap s a b Hab Hs) as H.
      destruct (Simple.swap_in_section s a b); simpl in *; now constructor.
    - destruct (Simple.swap_fields r n a b); simpl in *; now constructor. }
  assert (Hstep : forall a st, Forall P (Simple.sections st) ->
            Forall P (Simple.sections (Simple.step a st))).
  { intros a st H. unfold Simple.step. destruct (Simple.enabled a st); [|exact H].
    destruct a as [si fi|si fi|si fi|si| |]; simpl.
    - destruct (Simple.object_at si fi st) as [[section field]|]; [|exact H].
      unfold Simple.click_drag_handle.
      destruct (Simple.selected_field st) as [[[s0 l0] i0]|]; [|exact H].
      destruct (str_eqb s0 (name section)); simpl; [|exact H].
      destruct (str_eqb i0 (id field)) eqn:E; simpl; [exact H|].
      apply str_eqb_neq in E.
      pose proof (Hsecs _ (name section) i0 (id field) E H) as H'.
      destruct (Simple.swap_fields (Simple.sections st) (name section) i0 (id field));
        exact H'.
    - unfold Simple.hide_field.
      destruct (Simple.object_at si fi st) as [[section field]|]; [|exact H].
      assert (H' : Forall P (Simple.sections
                     (Simple.on_field si fi (fun f => with_visible f false) st))).
      { simpl. apply Forall_update_at; [|exact H]. intros s. apply Hvis. }
      destruct (Simple.selected_field _) as [[[s0 l0] i0]|]; [|exact H'].
      destruct (str_eqb i0 (id field)); exact H'.
    - apply Forall_update_at; [|exact H]. intros s. apply Hvis.
    - apply Forall_update_at; [|exact H]. intros s. apply Hexp.
    - exact H.
    - exact Hseed. }
  induction acts as [|a r IH]; simpl; intros st H; [exact H|].
  apply IH. now apply Hstep.
Qed.

(** X12: in every session of the swap variant, in every section, the field
    at index [k] of [section.fields] has position [k]: the positions are
    always 0, 1, ..., n-1 without gap or repetition, the list is always in
    the order of its positions, and ids are unique. *)
Theorem swap_sessions_keep_positions_dense
  (acts : list Simple.action) (S : LayoutSection) (k : nat) (f : LayoutField) :
  In S (Simple.sections (Simple.run acts seed_session)) ->
  (nth_error (fields S) k = Some f -> position f = Z.of_nat k)
  /\ map position (fields S) = map Z.of_nat (seq 0 (List.length (fields S)))
  /\ sorted_fields S = fields S
  /\ NoDup (map id (fields S)).
Proof.
  intros HS.
  assert (Hseed : Forall indexed Simple.original_sections).
  { unfold Simple.original_sections.
    repeat (apply Forall_cons;
            [split; [apply distinct_NoDup; vm_compute; reflexivity | reflexivity]|]).
    apply Forall_nil. }
  pose proof (simple_run_preserves indexed swap_in_section_indexed
                (fun s fi v => with_visible_indexed fi v s) (fun s e H => H)
                Hseed acts seed_session Hseed) as H.
  rewrite Forall_forall in H. destruct (H S HS) as [HN Hpos].
  split; [|split; [exact Hpos|split; [|exact HN]]].
  - intros Hf.
    assert (Hk : nth_error (map position (fields S)) k = Some (position f)).
    { now rewrite nth_error_map, Hf. }
    rewrite Hpos, nth_error_map in Hk.
    destruct (nth_error (seq 0 (List.length (fields S))) k) as [j|] eqn:E;
      [|discriminate].
    injection Hk as <-.
    assert (Hlt : (k < List.length (seq 0 (List.length (fields S))))%nat).
    { apply nth_error_Some. congruence. }
    rewrite length_seq in Hlt.
    rewrite (nth_error_nth' _ 0%nat) in E by (now rewrite length_seq).
    rewrite seq_nth in E by exact Hlt. injection E as <-. reflexivity.
  - unfold sorted_fields. apply sorted_by_position_id.
    apply strictly_sorted_pos_le. rewrite Hpos.
    apply (StronglySorted_seq 0).
Qed.

Lemma swap_sessions_keep_positions_dense_witness :
  let acts := [Simple.ClickHandle 1 0; Simple.ClickHandle 1 3; Simple.ClickHide 1 1] in
  let S := nth 1 (Simple.sections (Simple.run acts seed_session))
             (mkSection [] [] [] true) in
  In S (Simple.sections (Simple.run acts seed_session))
  /\ map (fun f => (id f, position f)) (fields S)
     = [(py "parent_netsuite", 0); (py "parent_cad", 1);
        (py "parent_account", 2); (py "parent_us", 3)]
  /\ map position (fields S) = map Z.of_nat (seq 0 (List.length (fields S))).
Proof.
  intros acts S.
  assert (H : In S (Simple.sections (Simple.run acts seed_session))).
  { vm_compute. right. left. reflexivity. }
  split; [exact H|]. split; [vm_compute; reflexivity|].
  exact (proj1 (proj2 (swap_sessions_keep_positions_dense acts S 0
                         (LF_ "x" "x" "x" "x" true 0) H))).
Defined.

(** * The selection of the swap variant, in every session *)

Lemma In_update_at {A : Type} (g : A -> A) (k : nat) (l : list A) (x : A) :
  In x l ->
  In x (update_at k g l) \/ (nth_error l k = Some x /\ In (g x) (update_at k g l)).
Proof.
  revert k. induction l as [|y r IH]; intros k H; [contradiction|].
  destruct k as [|k]; simpl.
  - destruct H as [->|H]; [right; split; [reflexivity | now left] | left; now right].
  - destruct H as [->|H]; [left; now left|].
    destruct (IH k H) as [H'|[H1 H2]]; [left; now right | right; split; [exact H1 | now right]].
Qed.

Lemma In_update_at_keep {A : Type} (g : A -> A) (k : nat) (l : list A) (x : A) :
  In x l -> (nth_error l k = Some x -> g x = x) -> In x (update_at k g l).
Proof.
  intros H Hg. destruct (In_update_at g k l x H) as [H'|[H1 H2]]; [exact H'|].
  now rewrite (Hg H1) in H2.
Qed.

Lemma swap_fields_raised (secs : list LayoutSection) (n a b : str) (e : exn)
  (secs' : list LayoutSection) :
  Simple.swap_fields secs n a b = Raised e secs' -> secs' = secs.
Proof.
  revert secs'. induction secs as [|s r IH]; simpl; intros secs' H; [discriminate|].
  destruct (str_eqb (name s) n).
  - unfold Simple.swap_in_section in H.
    destruct (next_field a (fields s)); [|simpl in H; now injection H as _ <-].
    destruct (next_field b (fields s)); [discriminate|].
    simpl in H. now injection H as _ <-.
  - destruct (Simple.swap_fields r n a b) as [r'|e' r']; simpl in H; [discriminate|].
    injection H as -> <-. f_equal. now apply (IH r').
Qed.

Lemma object_at_In (si fi : nat) (st : Simple.SessionState)
  (section : LayoutSection) (field : LayoutField) :
  Simple.object_at si fi st = Some (section, field) ->
  nth_error (Simple.sections st) si = Some section
  /\ nth_error (fields section) fi = Some field
  /\ In section (Simple.sections st) /\ In field (fields section).
Proof.
  unfold Simple.object_at. intros H.
  destruct (nth_error (Simple.sections st) si) as [S|] eqn:E1; [|discriminate].
  destruct (nth_error (fields S) fi) as [f|] eqn:E2; [|discriminate].
  injection H as <- <-. repeat split; try assumption; eapply nth_error_In; eassumption.
Qed.

(** A selection stays good when a section is replaced by one of the same
    name that still holds the selected field. *)
Lemma selection_ok_update (si : nat) (G : LayoutSection -> LayoutSection)
  (st : Simple.SessionState) (sel : option (str * str * str)) (p : bool) :
  Simple.selected_field st = sel ->
  selection_ok st ->
  (forall S, name (G S) = name S) ->
  (forall S f s l, sel = Some (s, l, id f) -> nth_error (Simple.sections st) si = Some S ->
     In f (fields S) -> shown f = true -> In f (fields (G S))) ->
  selection_ok (Simple.mkState (update_at si G (Simple.sections st)) sel p).
Proof.
  intros Hsel Hok Hname Hkeep. unfold selection_ok in *. simpl.
  rewrite Hsel in Hok. destruct sel as [[[s l] i]|]; [|exact I].
  destruct Hok as [S [f [HS [Hn [Hf [Hi [Hl Hsh]]]]]]].
  destruct (In_update_at G si _ S HS) as [H'|[H1 H2]].
  - exists S, f. now repeat split.
  - exists (G S), f. repeat split; try assumption.
    + now rewrite Hname.
    + apply (Hkeep S f s l); try assumption. now rewrite Hi.
Qed.

Lemma simple_step_selection_ok (a : Simple.action) (st : Simple.SessionState) :
  selection_ok st -> selection_ok (Simple.step a st).
Proof.
  intros Hok. unfold Simple.step. destruct (Simple.enabled a st) eqn:En; [|exact Hok].
  destruct a as [si fi|si fi|si fi|si| |]; simpl in *.
  - destruct (Simple.object_at si fi st) as [[section field]|] eqn:Ho; [|exact Hok].
    destruct (object_at_In _ _ _ _ _ Ho) as [_ [_ [HS Hf]]].
    apply andb_true_iff in En as [_ Hsh].
    assert (Hnew : selection_ok
                     (Simple.mkState (Simple.sections st)
                        (Some (name section, label field, id field))
                        (Simple.show_hidden_panel st))).
    { unfold selection_ok. simpl. exists section, field. now repeat split. }
    unfold Simple.click_drag_handle.
    destruct (Simple.selected_field st) as [[[s0 l0] i0]|] eqn:Hsel; [|exact Hnew].
    destruct (str_eqb s0 (name section) && negb (str_eqb i0 (id field))); [|exact Hnew].
    destruct (Simple.swap_fields (Simple.sections st) (name section) i0 (id field))
      as [secs|e secs] eqn:Hsw; simpl.
    + exact I.
    + apply swap_fields_raised in Hsw. subst secs.
      unfold selection_ok in *. simpl. now rewrite Hsel in Hok.
  - unfold Simple.hide_field.
    destruct (Simple.object_at si fi st) as [[section field]|] eqn:Ho; [|exact Hok].
    destruct (object_at_In _ _ _ _ _ Ho) as [HS [Hf _]].
    unfold Simple.on_field, Simple.on_section. simpl.
    destruct (Simple.selected_field st) as [[[s0 l0] i0]|] eqn:Hsel; [|exact I].
    destruct (str_eqb i0 (id field)) eqn:E; [exact I|].
    apply str_eqb_neq in E.
    apply (selection_ok_update si _ st (Some (s0, l0, i0))); try assumption.
    + reflexivity.
    + intros S f s l Hs HS' Hin _. simpl.
      apply In_update_at_keep; [exact Hin|].
      intros Hnth. exfalso. apply E.
      rewrite HS in HS'. injection HS' as <-.
      rewrite Hf in Hnth. injection Hnth as ->. now injection Hs as _ _ ->.
  - unfold Simple.unhide_field, Simple.on_field, Simple.on_section.
    apply (selection_ok_update si _ st (Simple.selected_field st)); try easy.
    intros S f s l _ _ Hin Hsh. simpl.
    apply In_update_at_keep; [exact Hin|].
    intros _. apply andb_true_iff in Hsh as [Hv _]. destruct f; simpl in *. now subst.
  - unfold Simple.toggle_section, Simple.on_section.
    apply (selection_ok_update si _ st (Simple.selected_field st)); easy.
  - exact Hok.
  - exact I.
Qed.

Lemma simple_run_selection_ok (acts : list Simple.action) (st : Simple.SessionState) :
  selection_ok st -> selection_ok (Simple.run acts st).
Proof.
  revert st. induction acts as [|a r IH]; simpl; intros st H; [exact H|].
  apply IH. now apply simple_step_selection_ok.
Qed.

Lemma simple_session_names (acts : list Simple.action) :
  NoDup (map name (Simple.sections (Simple.run acts seed_session))).
Proof.
  pose proof (simple_run_kept acts seed_session (Forall2_same _ _ kept_refl)) as H.
  assert (E : map name (Simple.sections (Simple.run acts seed_session))
              = map name Simple.original_sections).
  { induction H as [|s0 s r0 r [Hn _] Hr IH]; simpl; [reflexivity|].
    now rewrite Hn, IH. }
  rewrite E. apply distinct_NoDup. vm_compute. reflexivity.
Qed.

Lemma simple_session_ids (acts : list Simple.action) (S : LayoutSection) :
  In S (Simple.sections (Simple.run acts seed_session)) -> NoDup (map id (fields S)).
Proof.
  intros HS.
  pose proof (simple_run_in_order acts seed_session
                simple_original_sections_in_order) as H.
  rewrite Forall_forall in H. now destruct (H S HS).
Qed.

(** X13: in every session of the swap variant a pending selection names a
    section of the session and a field of it that is visible and has a
    label; the status line shows the label of that field; and that field,
    and no other field of the layout, is drawn as selected. *)
Theorem selection_is_a_listed_field
  (acts : list Simple.action) (s l i : str) :
  let st := Simple.run acts seed_session in
  Simple.selected_field st = Some (s, l, i) ->
  exists S f,
    In S (Simple.sections st) /\ name S = s
    /\ In f (fields S) /\ id f = i
    /\ visible f = true /\ label f <> []
    /\ Simple.drag_status st = Some (label f)
    /\ Simple.is_selected S f st = true
    /\ forall S' f', In S' (Simple.sections st) -> In f' (fields S') ->
         Simple.is_selected S' f' st = true -> S' = S /\ f' = f.
Proof.
  intros st Hsel.
  pose proof (simple_run_selection_ok acts seed_session I) as Hok.
  fold st in Hok. unfold selection_ok in Hok. rewrite Hsel in Hok.
  destruct Hok as [S [f [HS [Hn [Hf [Hi [Hl Hsh]]]]]]].
  exists S, f. apply shown_spec in Hsh as [Hv Hlab].
  repeat split; try assumption.
  - unfold Simple.drag_status. now rewrite Hsel, Hl.
  - unfold Simple.is_selected. rewrite Hsel, <- Hn, <- Hi.
    now rewrite !str_eqb_refl.
  - assert (ES : S' = S).
    { unfold Simple.is_selected in H1. rewrite Hsel in H1.
      apply andb_true_iff in H1 as [H1 _]. apply str_eqb_eq in H1.
      apply (unique_by_key name (Simple.sections st)); try assumption.
      + apply simple_session_names.
      + congruence. }
    exact ES.
  - assert (ES : S' = S).
    { unfold Simple.is_selected in H1. rewrite Hsel in H1.
      apply andb_true_iff in H1 as [H1 _]. apply str_eqb_eq in H1.
      apply (unique_by_key name (Simple.sections st)); try assumption.
      + apply simple_session_names.
      + congruence. }
    subst S'. unfold Simple.is_selected in H1. rewrite Hsel in H1.
    apply andb_true_iff in H1 as [_ H1]. apply str_eqb_eq in H1.
    apply (unique_by_id (fields S)); try assumption.
    + now apply (simple_session_ids acts).
    + congruence.
Qed.

(** [tags] selected, [phone] hidden, Account Information collapsed. *)
Lemma selection_is_a_listed_field_witness :
  let acts := [Simple.ClickHandle 0 10; Simple.ClickHide 0 11; Simple.ClickSection 0] in
  let st := Simple.run acts seed_session in
  Simple.selected_field st = Some (py "account_info", py "Tags", py "tags")
  /\ exists S f,
       In S (Simple.sections st) /\ name S = py "account_info"
       /\ In f (fields S) /\ id f = py "tags"
       /\ visible f = true /\ label f <> [].
Proof.
  intros acts st.
  assert (H : Simple.selected_field st
              = Some (py "account_info", py "Tags", py "tags")) by reflexivity.
  split; [exact H|].
  destruct (selection_is_a_listed_field acts _ _ _ H)
    as [S [f [H1 [H2 [H3 [H4 [H5 [H6 _]]]]]]]].
  exists S, f. repeat split; assumption.
Defined.

Lemma swap_fields_returns (secs : list LayoutSection) (n a b : str) :
  (forall S, lookup_section n secs = Some S ->
     In a (map id (fields S)) /\ In b (map id (fields S))) ->
  exists secs', Simple.swap_fields secs n a b = Returned secs'.
Proof.
  unfold lookup_section. induction secs as [|s r IH]; simpl; intros H.
  - now exists [].
  - destruct (str_eqb (name s) n).
    + destruct (H s eq_refl) as [Ha Hb]. unfold Simple.swap_in_section.
      destruct (next_field_In a _ Ha) as [k1 ->].
      destruct (next_field_In b _ Hb) as [k2 ->].
      simpl. eexists. reflexivity.
    + destruct (IH H) as [r' ->]. simpl. eexists. reflexivity.
Qed.

(** X14: in no session of the swap variant does a click on a drag handle
    raise: when it comes to a swap, the selected field and the clicked
    field are both found in the section, so the lookup by [next] never
    runs dry. *)
Theorem handle_click_never_raises
  (acts : list Simple.action) (si fi : nat)
  (section : LayoutSection) (field : LayoutField) :
  let st := Simple.run acts seed_session in
  Simple.object_at si fi st = Some (section, field) ->
  exists st', Simple.click_drag_handle section field st = Returned st'.
Proof.
  intros st Ho.
  destruct (object_at_In _ _ _ _ _ Ho) as [_ [_ [HS Hf]]].
  unfold Simple.click_drag_handle.
  destruct (Simple.selected_field st) as [[[s0 l0] i0]|] eqn:Hsel;
    [|eexists; reflexivity].
  destruct (str_eqb s0 (name section)) eqn:E; simpl; [|eexists; reflexivity].
  destruct (str_eqb i0 (id field)); simpl; [eexists; reflexivity|].
  apply str_eqb_eq in E.
  pose proof (simple_run_selection_ok acts seed_session I) as Hok.
  fold st in Hok. unfold selection_ok in Hok. rewrite Hsel in Hok.
  destruct Hok as [S [f [HS' [Hn [Hf' [Hi _]]]]]].
  destruct (swap_fields_returns (Simple.sections st) (name section) i0 (id field))
    as [secs' ->]; [|eexists; reflexivity].
  intros S0 H0. unfold lookup_section in H0. apply find_some in H0 as [H0 Hn0].
  apply str_eqb_eq in Hn0.
  assert (E1 : S = S0).
  { apply (unique_by_key name (Simple.sections st)); try assumption.
    - apply simple_session_names.
    - congruence. }
  assert (E2 : section = S0).
  { apply (unique_by_key name (Simple.sections st)); try assumption.
    - apply simple_session_names.
    - congruence. }
  split.
  - rewrite <- E1, <- Hi. now apply in_map.
  - rewrite <- E2. now apply in_map.
Qed.

(** [parent_us] selected, then the handle of [parent_netsuite]. *)
Lemma handle_click_never_raises_witness :
  let acts := [Simple.ClickHandle 1 0] in
  let st := Simple.run acts seed_session in
  let section := mkSection (py "parent_hierarchy") (py "Parent Hierarchy")
                   Simple.parent_fields true in
  let field := LF_ "parent_netsuite" "Parent NetSuite Id" empty "text" true 3 in
  Simple.object_at 1 3 st = Some (section, field)
  /\ exists st', Simple.click_drag_handle section field st = Returned st'.
Proof.
  intros acts st section field.
  assert (H : Simple.object_at 1 3 st = Some (section, field)) by reflexivity.
  split; [exact H|].
  exact (handle_click_never_raises acts 1 3 section field H).
Defined.

(** * The page after a drop *)

Lemma create_field_item_unpositioned (f g : LayoutField) (n : str) :
  unpositioned f = unpositioned g ->
  Real.create_field_item f n = Real.create_field_item g n.
Proof.
  unfold unpositioned. intros H. injection H as H1 H2 H3 H4 _.
  unfold Real.create_field_item, Real.display_value.
  now rewrite H1, H2, H3, H4.
Qed.

Lemma same_ids_same_fields (fs A B : list LayoutField) :
  NoDup (map id fs) ->
  (forall x, In x A -> exists g, In g fs /\ unpositioned x = unpositioned g) ->
  (forall y, In y B -> In y fs) ->
  map id A = map id B ->
  map unpositioned A = map unpositioned B.
Proof.
  intros HN. revert B. induction A as [|x r IH]; intros [|y r'] HA HB E;
    simpl in *; try discriminate; [reflexivity|].
  injection E as Exy Er.
  destruct (HA x (or_introl eq_refl)) as [g [Hg Hu]].
  assert (g = y).
  { apply (unique_by_id fs); auto.
    assert (Hid : id x = id g) by (unfold unpositioned in Hu; congruence).
    congruence. }
  subst g. rewrite Hu. f_equal. apply IH; auto.
Qed.

(** X15: in every session of the drag variant, whatever order the sortable
    component gives the items of a section back in, the reorder returns,
    and the items the page then shows for the section are the items given
    back, in that very order. *)
Theorem drop_shows_the_dropped_order
  (acts : list Real.action) (si : nat) (S : LayoutSection) (sorted_items : list str) :
  let st := Real.run acts real_seed_session in
  nth_error (Real.sections st) si = Some S ->
  Permutation sorted_items (Real.sortable_items S) ->
  exists S',
    Real.update_field_order S sorted_items = Returned S'
    /\ Real.sortable_items S' = sorted_items
    /\ map id (visible_fields S') = Real.extract_field_ids sorted_items.
Proof.
  intros st HS HP.
  assert (Hok : ids_ok S).
  { pose proof (real_run_ids_ok acts real_seed_session real_original_sections_ids_ok)
      as H.
    rewrite Forall_forall in H. apply H. eapply nth_error_In. exact HS. }
  destruct Hok as [HN HQ].
  assert (Hq : Forall (fun f => ~ In DQUOTE (id f)) (fields S)).
  { apply Forall_forall. intros f Hf. rewrite Forall_forall in HQ.
    apply HQ. now apply in_map. }
  assert (Hsub : forall f, In f (visible_fields S) -> In f (fields S)).
  { intros f Hf. unfold visible_fields, sorted_fields in Hf.
    apply filter_In in Hf as [Hf _].
    eapply Permutation_in; [apply sorted_by_position_perm | exact Hf]. }
  unfold Real.sortable_items in HP.
  destruct (Permutation_map_inv _ _ HP) as [fs' [Eitems Hfs']].
  assert (Hfs_in : forall y, In y fs' -> In y (fields S)).
  { intros y Hy. apply Hsub. eapply Permutation_in; [symmetry; exact Hfs' | exact Hy]. }
  assert (Hext : Real.extract_field_ids sorted_items = map id fs').
  { rewrite Eitems. apply extract_field_ids_rendered.
    apply Forall_forall. intros f Hf. rewrite Forall_forall in Hq.
    apply Hq. now apply Hfs_in. }
  assert (Hids : Permutation (Real.extract_field_ids sorted_items)
                   (map id (visible_fields S))).
  { rewrite Hext. apply Permutation_map. now symmetry. }
  destruct (reorder_by_permutation S sorted_items HN Hids)
    as [HNids [HW [S' [Hret Hlist]]]].
  assert (Hid' : map id (visible_fields S') = Real.extract_field_ids sorted_items).
  { rewrite Hlist.
    apply sorted_by_index_ids; [exact HNids | | now apply renumbered_by_index].
    rewrite map_map. now rewrite (map_ext _ id (renumber_id 0 _)). }
  exists S'. split; [exact Hret|]. split; [|exact Hid'].
  assert (Hname : name S' = name S).
  { pose proof (update_field_order_kept S sorted_items) as [Hn _].
    now rewrite Hret in Hn. }
  assert (Hu : map unpositioned (visible_fields S') = map unpositioned fs').
  { apply (same_ids_same_fields (fields S)); try assumption.
    - intros x Hx. rewrite Hlist in Hx.
      assert (Hx' : In x (map (renumber 0 (Real.extract_field_ids sorted_items))
                            (filter shown (fields S)))).
      { eapply Permutation_in; [apply sorted_by_position_perm | exact Hx]. }
      apply in_map_iff in Hx' as [g [<- Hg]]. exists g.
      apply filter_In in Hg as [Hg _]. split; [exact Hg|].
      apply renumber_unpositioned.
    - now rewrite Hid', Hext. }
  unfold Real.sortable_items. rewrite Hname, Eitems.
  clear - Hu. revert fs' Hu.
  induction (visible_fields S') as [|x r IH]; intros [|y r'] Hu; simpl in *;
    try discriminate; [reflexivity|].
  pose proof (f_equal (hd (unpositioned x)) Hu) as Hxy.
  pose proof (f_equal (@tl _) Hu) as Hr. cbn [hd tl] in Hxy, Hr.
  f_equal; [now apply create_field_item_unpositioned | now apply IH].
Qed.

(** Customer Success after a hide and a drag: its items given back in
    reverse. *)
Lemma drop_shows_the_dropped_order_witness :
  let acts := [Real.ClickHide 2 1] in
  let st := Real.run acts real_seed_session in
  let S := nth 2 (Real.sections st) (mkSection [] [] [] true) in
  let items := rev (Real.sortable_items S) in
  nth_error (Real.sections st) 2 = Some S
  /\ Permutation items (Real.sortable_items S)
  /\ exists S',
       Real.update_field_order S items = Returned S'
       /\ Real.sortable_items S' = items.
Proof.
  intros acts st S items.
  assert (H1 : nth_error (Real.sections st) 2 = Some S) by reflexivity.
  assert (H2 : Permutation items (Real.sortable_items S)).
  { symmetry. apply Permutation_rev. }
  split; [exact H1|]. split; [exact H2|].
  destruct (drop_shows_the_dropped_order acts 2 S items H1 H2) as [S' [E1 [E2 _]]].
  exists S'. split; assumption.
Defined.

(** * The counts on the page *)

Lemma filter_length_perm {A : Type} (q : A -> bool) (l l' : list A) :
  Permutation l l' -> List.length (filter q l) = List.length (filter q l').
Proof.
  induction 1 as [|x l l' HP IH|x y l|l l' l'' HP1 IH1 HP2 IH2]; simpl.
  - reflexivity.
  - destruct (q x); simpl; now rewrite IH.
  - destruct (q x), (q y); reflexivity.
  - congruence.
Qed.

(** A count that looks at nothing but label and visibility is the same
    for two lists that differ in order and positions only. *)
Lemma count_of_unpositioned (qu : str * str * str * str * bool -> bool)
  (l l' : list LayoutField) :
  Permutation (map unpositioned l') (map unpositioned l) ->
  List.length (filter (fun f => qu (unpositioned f)) l')
  = List.length (filter (fun f => qu (unpositioned f)) l).
Proof.
  intros HP.
  assert (E : forall m, List.length (filter (fun f => qu (unpositioned f)) m)
                        = List.length (filter qu (map unpositioned m))).
  { induction m as [|x r IH]; simpl; [reflexivity|].
    destruct (qu (unpositioned x)); simpl; now rewrite IH. }
  rewrite !E. now apply filter_length_perm.
Qed.

Lemma counts_of_unpositioned (S S' : LayoutSection) :
  Permutation (map unpositioned (fields S')) (map unpositioned (fields S)) ->
  Real.visible_count S' = Real.visible_count S
  /\ Real.hidden_count S' = Real.hidden_count S.
Proof.
  intros HP. split.
  - apply (count_of_unpositioned
             (fun u => snd u && truthy (snd (fst (fst (fst u))))) _ _ HP).
  - apply (count_of_unpositioned
             (fun u => negb (snd u) && truthy (snd (fst (fst (fst u))))) _ _ HP).
Qed.

(** X16: the header of a section counts its listing: [visible_count] is
    the number of fields listed for the section, and the visible, the
    hidden and the unlabelled fields together are all its fields.  The
    same in both files. *)
Theorem header_counts_the_listing (S : LayoutSection) :
  Real.visible_count S = List.length (visible_fields S)
  /\ Simple.visible_count S = List.length (visible_fields S)
  /\ Simple.hidden_count S = Real.hidden_count S
  /\ (Real.visible_count S + Real.hidden_count S
      + List.length (filter (fun f => negb (truthy (label f))) (fields S))
      = List.length (fields S))%nat.
Proof.
  assert (H : Real.visible_count S = List.length (visible_fields S)).
  { unfold Real.visible_count, visible_fields, sorted_fields.
    rewrite filter_sorted_by_position.
    symmetry. apply Permutation_length, sorted_by_position_perm. }
  split; [exact H|]. split; [exact H|]. split; [reflexivity|].
  unfold Real.visible_count, Real.hidden_count.
  induction (fields S) as [|f r IH]; [reflexivity|].
  cbn [filter]. unfold shown at 1, Real.hidden at 1.
  destruct (visible f), (truthy (label f)); cbn [andb negb List.length]; lia.
Qed.

Lemma sum_from (h : LayoutSection -> nat) (l : list LayoutSection) (n : nat) :
  fold_left (fun n s => (n + h s)%nat) l n
  = (n + fold_left (fun n s => (n + h s)%nat) l 0)%nat.
Proof.
  revert n. induction l as [|s r IH]; intros n; simpl; [lia|].
  rewrite (IH (n + h s)%nat), (IH (h s)). lia.
Qed.

(** X17: with the panel open, the hidden panel lists exactly as many fields
    as the button of [render_controls] announces, each of them invisible
    and with a label; the button is on the page exactly when that number
    is not zero. *)
Theorem hidden_panel_lists_the_count (st : Real.SessionState) :
  Real.show_hidden_panel st = true ->
  List.length (Real.all_hidden st) = Real.total_hidden_count st
  /\ Forall (fun e => visible (snd e) = false /\ label (snd e) <> [])
            (Real.all_hidden st)
  /\ (Real.enabled Real.ClickPanel st = true <-> (0 < Real.total_hidden_count st)%nat).
Proof.
  intros Hp. unfold Real.all_hidden, Real.total_hidden_count. rewrite Hp.
  split; [|split].
  - induction (Real.sections st) as [|s r IH]; simpl; [reflexivity|].
    rewrite length_app, IH, (sum_from Real.hidden_count r (Real.hidden_count s)).
    unfold Real.hidden_of, Real.hidden_count. now rewrite length_map.
  - apply Forall_forall. intros e He.
    apply in_flat_map in He as [s [_ He]].
    unfold Real.hidden_of in He. apply in_map_iff in He as [f [<- Hf]].
    apply filter_In in Hf as [_ Hf]. simpl.
    unfold Real.hidden in Hf. apply andb_true_iff in Hf as [Hv Hl].
    apply negb_true_iff in Hv. split; [exact Hv|].
    destruct (label f); [discriminate | discriminate].
  - simpl. induction (Real.sections st) as [|s r IH]; simpl.
    + split; [discriminate | lia].
    + rewrite (sum_from Real.hidden_count r (Real.hidden_count s)).
      unfold Real.hidden_count at 1.
      destruct (existsb Real.hidden (fields s)) eqn:E; simpl.
      * split; [|reflexivity]. intros _.
        apply existsb_exists in E as [f [Hf Hh]].
        assert (In f (filter Real.hidden (fields s))) as Hin
            by (apply filter_In; now split).
        destruct (filter Real.hidden (fields s)); [contradiction | simpl; lia].
      * assert (Hnil : filter Real.hidden (fields s) = []).
        { destruct (filter Real.hidden (fields s)) as [|f r'] eqn:F; [reflexivity|].
          assert (Hin : In f (filter Real.hidden (fields s))) by (rewrite F; now left).
          apply filter_In in Hin as [Hin Hh].
          assert (existsb Real.hidden (fields s) = true); [|congruence].
          apply existsb_exists. now exists f. }
        rewrite Hnil. simpl. exact IH.
Qed.

Lemma hidden_panel_lists_the_count_witness :
  let st := Real.run [Real.ClickHide 1 0; Real.ClickHide 0 3; Real.ClickPanel]
              real_seed_session in
  Real.show_hidden_panel st = true
  /\ List.length (Real.all_hidden st) = Real.total_hidden_count st
  /\ Real.total_hidden_count st = 2%nat.
Proof.
  intros st.
  assert (H : Real.show_hidden_panel st = true) by reflexivity.
  split; [exact H|]. split; [|reflexivity].
  exact (proj1 (hidden_panel_lists_the_count st H)).
Defined.

Lemma count_update_at {A : Type} (q : A -> bool) (g : A -> A) (k : nat)
  (l : list A) (x : A) :
  nth_error l k = Some x ->
  (List.length (filter q (update_at k g l)) + (if q x then 1 else 0)
   = List.length (filter q l) + (if q (g x) then 1 else 0))%nat.
Proof.
  revert k. induction l as [|y r IH]; intros [|k] H; simpl in *; try discriminate.
  - injection H as ->. destruct (q x), (q (g x)); simpl; lia.
  - specialize (IH k H). destruct (q y); simpl; lia.
Qed.

(** X18: the hide button of a listed field takes one from the visible
    count of its section and adds one to its hidden count; the show button
    of a hidden field does the reverse. *)
Theorem hide_and_show_move_one_count (S : LayoutSection) (fi : nat) (f : LayoutField) :
  nth_error (fields S) fi = Some f ->
  let hide := with_fields S (update_at fi (fun x => with_visible x false) (fields S)) in
  let show := with_fields S (update_at fi (fun x => with_visible x true) (fields S)) in
  (shown f = true ->
   (Real.visible_count hide + 1 = Real.visible_count S)%nat
   /\ Real.hidden_count hide = (Real.hidden_count S + 1)%nat)
  /\ (Real.hidden f = true ->
      Real.visible_count show = (Real.visible_count S + 1)%nat
      /\ (Real.hidden_count show + 1 = Real.hidden_count S)%nat).
Proof.
  intros Hf hide show. unfold Real.visible_count, Real.hidden_count. simpl.
  pose proof (count_update_at shown (fun x => with_visible x false) fi _ f Hf) as H1.
  pose proof (count_update_at Real.hidden (fun x => with_visible x false) fi _ f Hf) as H2.
  pose proof (count_update_at shown (fun x => with_visible x true) fi _ f Hf) as H3.
  pose proof (count_update_at Real.hidden (fun x => with_visible x true) fi _ f Hf) as H4.
  unfold shown, Real.hidden in *. simpl in *.
  split; intros Hq; apply andb_true_iff in Hq as [Hv Hl].
  - rewrite Hv, Hl in *. simpl in *. lia.
  - apply negb_true_iff in Hv. rewrite Hv, Hl in *. simpl in *. lia.
Qed.

Lemma hide_and_show_move_one_count_witness :
  let f := LF_ "parent_cad" "Parent Account TMW CAD" empty "text" true 1 in
  nth_error (fields parent_section) 1 = Some f /\ shown f = true
  /\ (Real.visible_count
        (with_fields parent_section
           (update_at 1 (fun x => with_visible x false) (fields parent_section))) + 1
      = Real.visible_count parent_section)%nat.
Proof.
  intros f.
  assert (H1 : nth_error (fields parent_section) 1 = Some f) by reflexivity.
  assert (H2 : shown f = true) by reflexivity.
  split; [exact H1|]. split; [exact H2|].
  exact (proj1 (proj1 (hide_and_show_move_one_count parent_section 1 f H1) H2)).
Defined.

(** X19: neither a reorder nor a swap changes what the headers count:
    after [update_field_order], returned or raised, the section has the
    visible and the hidden count it had, and after [swap_fields] every
    section has. *)
Theorem reorder_and_swap_keep_the_counts
  (S : LayoutSection) (sorted_items : list str)
  (secs : list LayoutSection) (section_name a b : str) :
  (Real.visible_count (state_of (Real.update_field_order S sorted_items))
   = Real.visible_count S
   /\ Real.hidden_count (state_of (Real.update_field_order S sorted_items))
      = Real.hidden_count S)
  /\ map Simple.visible_count (state_of (Simple.swap_fields secs section_name a b))
     = map Simple.visible_count secs
  /\ map Simple.hidden_count (state_of (Simple.swap_fields secs section_name a b))
     = map Simple.hidden_count secs.
Proof.
  split.
  - apply counts_of_unpositioned.
    unfold Real.update_field_order.
    pose proof (assign_positions_unpositioned
                  (Real.extract_field_ids sorted_items) 0 (fields S)) as H.
    destruct (Real.assign_positions 0 (Real.extract_field_ids sorted_items) (fields S))
      as [fs|e fs]; simpl in *.
    + rewrite <- H. apply Permutation_map, sorted_by_position_perm.
    + now rewrite H.
  - induction secs as [|s r [IH1 IH2]]; simpl; [now split|].
    destruct (str_eqb (name s) section_name).
    + destruct (swap_in_section_kept s a b) as [_ [_ [_ HP]]].
      destruct (counts_of_unpositioned _ _ HP) as [Hv Hh].
      destruct (Simple.swap_in_section s a b) as [s'|e s']; simpl in *;
        split; f_equal; assumption.
    + destruct (Simple.swap_fields r section_name a b) as [r'|e r']; simpl in *;
        split; f_equal; assumption.
Qed.

(** * Sessions of the swap variant, by example *)

(** After a swap and a hide: [parent_cad] and [parent_account] swapped
    twice. *)
Lemma swap_twice_in_any_session_witness :
  let acts := [Simple.ClickHandle 1 0; Simple.ClickHandle 1 3; Simple.ClickHide 1 1] in
  let st := Simple.run acts seed_session in
  let pre := firstn 1 (Simple.sections st) in
  let S := nth 1 (Simple.sections st) (mkSection [] [] [] true) in
  let post := skipn 2 (Simple.sections st) in
  Simple.sections st = pre ++ S :: post
  /\ exists secs1,
       Simple.swap_fields (Simple.sections st) (name S) (py "parent_cad")
         (py "parent_account") = Returned secs1
       /\ Simple.swap_fields secs1 (name S) (py "parent_cad") (py "parent_account")
          = Returned (Simple.sections st).
Proof.
  intros acts st pre S post.
  assert (H0 : Simple.sections st = pre ++ S :: post) by reflexivity.
  assert (H1 : Forall (fun s => name s <> name S) pre).
  { constructor; [vm_compute; discriminate | constructor]. }
  assert (H2 : In (py "parent_cad") (map id (fields S))) by (vm_compute; tauto).
  assert (H3 : In (py "parent_account") (map id (fields S))) by (vm_compute; tauto).
  assert (H4 : py "parent_cad" <> py "parent_account") by (vm_compute; discriminate).
  split; [exact H0|].
  exact (swap_twice_in_any_session acts pre post S _ _ H0 H1 H2 H3 H4).
Defined.

Lemma listing_strict_in_swap_sessions_witness :
  let acts := [Simple.ClickHandle 2 0; Simple.ClickHandle 2 10; Simple.ClickHide 2 3] in
  let S := nth 2 (Simple.sections (Simple.run acts seed_session))
             (mkSection [] [] [] true) in
  In S (Simple.sections (Simple.run acts seed_session))
  /\ map position (visible_fields S) = [0; 1; 2; 4; 6; 8; 10]
  /\ StronglySorted pos_lt (visible_fields S).
Proof.
  intros acts S.
  assert (H : In S (Simple.sections (Simple.run acts seed_session))).
  { vm_compute. do 2 right. left. reflexivity. }
  split; [exact H|]. split; [vm_compute; reflexivity|].
  exact (listing_strict_in_swap_sessions acts S H).
Defined.

(** * No item of the page is passed over *)

Lemma rendered_item_has_marker (field : LayoutField) (section_name : str) :
  str_in Real.ID_MARKER (Real.create_field_item field section_name) = true.
Proof.
  destruct (create_field_item_shape field section_name) as [rest ->].
  unfold str_in. rewrite py_find_from_0. reflexivity.
Qed.

(** X22: every item the page renders carries the marker, whatever the id
    of its field, so the reorder reads one id from each item it is given
    back and none is passed over; and the value cell of an item is never
    empty. *)
Theorem rendered_items_are_all_read (S : LayoutSection) (field : LayoutField) :
  Forall (fun item => str_in Real.ID_MARKER item = true) (Real.sortable_items S)
  /\ List.length (Real.extract_field_ids (Real.sortable_items S))
     = List.length (visible_fields S)
  /\ Real.extract_field_ids (Real.sortable_items S)
     = map Real.parse_field_id (Real.sortable_items S)
  /\ Real.display_value field <> [].
Proof.
  assert (Hall : forall fs : list LayoutField,
            Real.extract_field_ids
              (map (fun f => Real.create_field_item f (name S)) fs)
            = map Real.parse_field_id
                (map (fun f => Real.create_field_item f (name S)) fs)).
  { induction fs as [|f r IH]; [reflexivity|].
    cbn [map Real.extract_field_ids].
    now rewrite rendered_item_has_marker, IH. }
  unfold Real.sortable_items. split; [|split; [|split]].
  - apply Forall_forall. intros item Hitem.
    apply in_map_iff in Hitem as [f [<- _]]. apply rendered_item_has_marker.
  - now rewrite Hall, !length_map.
  - apply Hall.
  - unfold Real.display_value.
    destruct (str_eqb (field_type field) (py "url") && truthy (value field));
      [discriminate|].
    destruct (str_eqb (field_type field) (py "phone") && truthy (value field));
      [discriminate|].
    destruct (value field); simpl; discriminate.
Qed.

(** * What a reorder writes *)

(** The position the loop leaves for a recovered id is the index of its
    last mention. *)
Lemma final_position_last (ids : list str) (a : str) :
  In a ids ->
  exists j,
    nth_error ids j = Some a /\ ~ In a (skipn (S j) ids)
    /\ forall i p, final_position i ids a p = Z.of_nat (i + j).
Proof.
  induction ids as [|b rest IH]; intros Ha; [contradiction|].
  destruct (in_dec (list_eq_dec N.eq_dec) a rest) as [Hin|Hin].
  - destruct (IH Hin) as [j [Hj [Hlast Hfin]]].
    exists (S j). split; [exact Hj|]. split; [exact Hlast|].
    intros i p. simpl. rewrite Hfin. f_equal. lia.
  - destruct Ha as [->|Ha]; [|contradiction].
    exists O. split; [reflexivity|]. split; [exact Hin|].
    intros i p. simpl. rewrite str_eqb_refl.
    rewrite (final_position_unlisted rest a Hin). f_equal. lia.
Qed.

(** Every recovered id has its first field written, and the last write
    stays. *)
Lemma assign_positions_writes_last (ids : list str) :
  forall i fs a,
    Forall (fun b => In b (map id fs)) ids -> In a ids ->
    exists k f,
      next_field a fs = Some k
      /\ nth_error (state_of (Real.assign_positions i ids fs)) k = Some f
      /\ id f = a
      /\ forall p, position f = final_position i ids a p.
Proof.
  induction ids as [|b rest IH]; intros i fs a Hall Ha; [contradiction|].
  inversion Hall as [|? ? Hb Hrest]; subst.
  destruct (next_field_In b fs Hb) as [kb Hkb].
  cbn [Real.assign_positions]. rewrite Hkb.
  assert (Hids : map id (set_position kb (Z.of_nat i) fs) = map id fs).
  { unfold set_position. now rewrite update_at_map. }
  destruct (in_dec (list_eq_dec N.eq_dec) a rest) as [Hin|Hin].
  - destruct (IH (S i) (set_position kb (Z.of_nat i) fs) a) as [k [f [Hk [Hn [Hid Hp]]]]].
    + now rewrite Hids.
    + exact Hin.
    + exists k, f. split; [|split; [exact Hn | split; [exact Hid|]]].
      * rewrite <- Hk. symmetry. now apply next_field_same_ids.
      * intros p. cbn [final_position]. apply Hp.
  - destruct Ha as [->|Ha]; [|contradiction].
    destruct (next_field_Some a fs kb Hkb) as [f0 [Hf0 Hid0]].
    exists kb, (with_position f0 (Z.of_nat i)).
    split; [exact Hkb|]. split; [|split].
    + apply assign_positions_other_objects.
      * unfold set_position.
        exact (update_at_nth_same (fun f => with_position f (Z.of_nat i)) kb fs f0 Hf0).
      * simpl. now rewrite Hid0.
    + exact Hid0.
    + intros p. cbn [final_position]. rewrite str_eqb_refl.
      now rewrite (final_position_unlisted rest a Hin).
Qed.

(** C2, as the code has it: [update_field_order] validates nothing.  An
    item without the marker is passed over, as if it had not been given.
    When every recovered id is the id of a field of the section the call
    returns and the reorder is applied, whether or not the recovered ids
    are the ids of the listed fields: for every recovered id a field of
    that id has as position the index of the last mention of the id, the
    fields whose id is not recovered are as they were, and the fields are
    sorted by position; with unique ids the fields are exactly the old ones,
    each at the index of the last mention of its id or, without a mention,
    at its old position, sorted.  Otherwise the call raises
    [StopIteration].  Either way the section keeps its name, title and
    expansion, and its fields keep everything but their position. *)
Theorem update_field_order_validates_nothing (S : LayoutSection) (sorted_items : list str) :
  let ids := Real.extract_field_ids sorted_items in
  let out := Real.update_field_order S sorted_items in
  out = Real.update_field_order S (filter (str_in Real.ID_MARKER) sorted_items)
  /\ (Forall (fun a => In a (map id (fields S))) ids ->
      exists S',
        out = Returned S' /\ StronglySorted pos_le (fields S')
        /\ (forall a, In a ids ->
              exists j f,
                nth_error ids j = Some a /\ ~ In a (skipn (Datatypes.S j) ids)
                /\ In f (fields S') /\ id f = a /\ position f = Z.of_nat j)
        /\ Permutation (filter (not_listed ids) (fields S'))
                       (filter (not_listed ids) (fields S))
        /\ (NoDup (map id (fields S)) ->
            fields S' = sorted_by_position (map (reposition 0 ids) (fields S))))
  /\ (~ Forall (fun a => In a (map id (fields S))) ids ->
      exists S', out = Raised StopIteration S')
  /\ Permutation (map unpositioned (fields (state_of out))) (map unpositioned (fields S))
  /\ name (state_of out) = name S
  /\ title (state_of out) = title S
  /\ expanded (state_of out) = expanded S.
Proof.
  intros ids out. subst out. unfold Real.update_field_order.
  rewrite extract_field_ids_skips. fold ids.
  split; [reflexivity|].
  split; [|split].
  - intros H.
    pose proof (fun a => assign_positions_writes_last ids 0 (fields S) a H) as Hw.
    pose proof (assign_positions_not_listed ids ids (incl_refl _) 0 (fields S)) as Hfr.
    assert (Hincl : incl ids (map id (fields S))).
    { intros a Ha. rewrite Forall_forall in H. now apply H. }
    pose proof (fun HN => assign_positions_final ids 0 (fields S) HN Hincl) as Hfin.
    destruct (assign_positions_returns ids 0 (fields S) H) as [fs E].
    rewrite E in *. simpl in Hw, Hfr.
    eexists. split; [reflexivity|]. simpl.
    split; [apply sorted_by_position_sorted|]. split; [|split].
    + intros a Ha.
      destruct (final_position_last ids a Ha) as [j [Hj [Hlast Hpos]]].
      destruct (Hw a Ha) as [k [f [_ [Hn [Hid Hp]]]]].
      exists j, f. repeat split; try assumption.
      * eapply Permutation_in; [symmetry; apply sorted_by_position_perm|].
        eapply nth_error_In. exact Hn.
      * rewrite (Hp 0), Hpos. reflexivity.
    + now rewrite filter_sorted_by_position, sorted_by_position_perm, Hfr.
    + intros HN. specialize (Hfin HN). injection Hfin as ->. reflexivity.
  - intros H. destruct (assign_positions_raises ids 0 (fields S) H) as [fs ->].
    eexists. reflexivity.
  - pose proof (assign_positions_unpositioned ids 0 (fields S)) as H.
    destruct (Real.assign_positions 0 ids (fields S)) as [fs|e fs]; simpl in *.
    + repeat split. rewrite <- H. apply Permutation_map, sorted_by_position_perm.
    + repeat split. now rewrite H.
Qed.

(** Parent Hierarchy of the seed and [malformed_items]: every recovered id
    is the id of a field, the call returns, [parent_cad] is at position 0
    and [parent_us] at position 1. *)
Lemma update_field_order_validates_nothing_witness :
  Forall (fun a => In a (map id (fields parent_section)))
         (Real.extract_field_ids malformed_items)
  /\ NoDup (map id (fields parent_section))
  /\ exists S', Real.update_field_order parent_section malformed_items = Returned S'
                /\ StronglySorted pos_le (fields S')
                /\ map (fun f => (id f, position f)) (fields S')
                   = [(py "parent_cad", 0); (py "parent_us", 1);
                      (py "parent_account", 2); (py "parent_netsuite", 3)].
Proof.
  assert (H : Forall (fun a => In a (map id (fields parent_section)))
                (Real.extract_field_ids malformed_items)).
  { vm_compute. repeat constructor; simpl; tauto. }
  assert (HN : NoDup (map id (fields parent_section))).
  { apply distinct_NoDup. vm_compute. reflexivity. }
  split; [exact H|]. split; [exact HN|].
  destruct (proj1 (proj2 (update_field_order_validates_nothing
                            parent_section malformed_items)) H)
    as [S' [E [Hs [_ [_ Hx]]]]].
  exists S'. split; [exact E|]. split; [exact Hs|].
  rewrite (Hx HN). vm_compute. reflexivity.
Defined.
